(** * scripts/scrape_observer.py: the fetch / parse / persist pipeline

    A shallow embedding of the scraper and the properties of its
    behaviour.

    - Python strings are sequences of Unicode code points.
    - The parse tree built by BeautifulSoup is seen through the two
      queries the script makes of it ([find] with a string predicate and
      [find_all_next]), i.e. as the sequence of its text nodes in
      document order.
    - The network, the HTML parser and the clock are an environment the
      run is given; an exception is known by its text, [str(e)].
    - Files hold text, by path; writing a text that UTF-8 cannot encode
      raises, as does printing a text that the encoder of standard
      output refuses.
    - [json.dumps] with [indent=2] and [csv.DictWriter] for the excel
      dialect are written out, since the script's output is their
      output.
    - The script is the Python text of the file, from its shebang line to
      [raise SystemExit(main())].  The guard around the two imports,
      which ends the process with status 1 when a dependency is missing,
      is outside the model: the run starts with the dependencies loaded
      and the output directory made.  The string literal of that guard
      that is broken over two lines is read as the line feed escape it
      stands for. *)

From Stdlib Require Import List NArith Arith Bool Ascii String Lia.
Import ListNotations.

Set Warnings "-register-all".

(** ** Python [str] *)

Module Py.

Definition char := N.
Definition str := list char.

Definition char_of_ascii (a : ascii) : char := N_of_ascii a.

(** An ASCII literal as a Python string. *)
Fixpoint lit (s : string) : str :=
  match s with
  | EmptyString => []
  | String a s' => char_of_ascii a :: lit s'
  end.

Fixpoint eqb_str (a b : str) : bool :=
  match a, b with
  | [], [] => true
  | x :: a', y :: b' => (x =? y)%N && eqb_str a' b'
  | _, _ => false
  end.

Arguments lit s%_string.

(** Truth value of a string: empty is false. *)
Definition truthy (s : str) : bool :=
  match s with [] => false | _ :: _ => true end.

(** [str.isspace] on one code point (the Unicode White_Space set that
    CPython's [_PyUnicode_IsWhitespace] accepts). *)
Definition isspace (c : char) : bool :=
  ((9 <=? c) && (c <=? 13) || (28 <=? c) && (c <=? 32)
   || (c =? 133) || (c =? 160) || (c =? 5760)
   || (8192 <=? c) && (c <=? 8202)
   || (c =? 8232) || (c =? 8233) || (c =? 8239) || (c =? 8287)
   || (c =? 12288))%N.

Fixpoint lstrip (s : str) : str :=
  match s with
  | [] => []
  | c :: s' => if isspace c then lstrip s' else s
  end.

Definition rstrip (s : str) : str := rev (lstrip (rev s)).

(** [s.strip()] *)
Definition strip (s : str) : str := rstrip (lstrip s).

(** [s.startswith(p)] *)
Fixpoint startswith (p s : str) : bool :=
  match p, s with
  | [], _ => true
  | _ :: _, [] => false
  | a :: p', b :: s' => (a =? b)%N && startswith p' s'
  end.

(** [sub in s] *)
Fixpoint contains (sub s : str) : bool :=
  startswith sub s ||
  match s with
  | [] => false
  | _ :: s' => contains sub s'
  end.

(** [s.split(sep)] for a non-empty [sep]: a left-to-right scan for
    non-overlapping occurrences.  [skip] counts the characters of the
    occurrence just found that are still to be passed over, [cur] is the
    fragment being collected, reversed. *)
Fixpoint split_go (sep : str) (skip : nat) (cur : str) (s : str) : list str :=
  match s with
  | [] => [rev cur]
  | c :: s' =>
      match skip with
      | S k => split_go sep k cur s'
      | O =>
          if startswith sep s
          then rev cur :: split_go sep (List.length sep - 1) [] s'
          else split_go sep 0 (c :: cur) s'
      end
  end.

Definition split (sep s : str) : list str := split_go sep 0 [] s.

(** [sep.join(parts)] *)
Fixpoint join (sep : str) (parts : list str) : str :=
  match parts with
  | [] => []
  | [p] => p
  | p :: rest => p ++ sep ++ join sep rest
  end.

(** [s.replace(old, new)] for a non-empty [old]. *)
Definition replace (old new s : str) : str := join new (split old s).

(** [any(x in s for x in xs)] *)
Definition any_in (xs : list str) (s : str) : bool :=
  existsb (fun x => contains x s) xs.

End Py.

Import Py.

(** ** Module constants *)

(** A [dict] with string keys and values, in insertion order. *)
Definition dict := list (str * str).

(** [d.get(k, default)] *)
Fixpoint get (d : dict) (k : str) (default : str) : str :=
  match d with
  | [] => default
  | (k', v) :: d' => if eqb_str k' k then v else get d' k default
  end.

Definition keys (d : dict) : list str := map fst d.

Definition FIELDS : list str :=
  [ lit "constituency"; lit "parish"; lit "candidate"; lit "party";
    lit "votes"; lit "percent"; lit "status"; lit "boxes" ].

(** ** parse_rows *)

(** The parse tree, as [soup.find(string=...)] and [find_all_next(text=True)]
    see it: its text nodes in document order.  A node is designated by its
    position. *)
Definition soup := list str.

(** [soup.find(string=p)]: the first text node satisfying [p]. *)
Fixpoint find (p : str -> bool) (doc : soup) : option nat :=
  match doc with
  | [] => None
  | node :: rest =>
      if p node then Some 0 else option_map S (find p rest)
  end.

(** [anchor.find_all_next(text=True)]: the text nodes after the anchor. *)
Definition find_all_next (doc : soup) (anchor : nat) : list str :=
  skipn (S anchor) doc.

(** Truth value of the result of [find]: [None] is false, a node has the
    truth value of its text. *)
Definition found (doc : soup) (anchor : option nat) : bool :=
  match anchor with
  | None => false
  | Some i => match nth_error doc i with Some node => truthy node | None => false end
  end.

Definition anchors : list str :=
  [ lit "Detailed Results by Constituency"; lit "Constituency Results" ].

Definition copyright_sign : str := [169%N].

Definition stop_markers : list str :=
  [ lit "Follow Us"; lit "Connect With Us"; lit "Mobile Apps"; copyright_sign ].

Definition status_tokens : list str :=
  [ lit "Not Started"; lit "Counting"; lit "Declared" ].

(** [for label in anchors: anchor = soup.find(...); if anchor: break] *)
Fixpoint find_anchor (doc : soup) (labels : list str) (anchor : option nat)
  : option nat :=
  match labels with
  | [] => anchor
  | label :: labels' =>
      let anchor := find (fun s => contains label s) doc in
      if found doc anchor then anchor else find_anchor doc labels' anchor
  end.

(** [[p for p in s.split("  ") if p]] *)
Definition fragments (s : str) : list str :=
  filter truthy (split (lit "  ") s).

(** The dict literal appended for a node with at least 8 fragments. *)
Definition make_row (parts : list str) : dict :=
  [ (lit "constituency", nth 0 parts []);
    (lit "parish", nth 1 parts []);
    (lit "candidate", nth 2 parts []);
    (lit "party", nth 3 parts []);
    (lit "votes", nth 4 parts []);
    (lit "percent", replace (lit "%") [] (nth 5 parts []));
    (lit "status", nth 6 parts []);
    (lit "boxes", nth 7 parts []) ].

(** The loop over the nodes after the anchor; [rows] is the list being
    appended to. *)
Fixpoint walk (nodes : list str) (rows : list dict) : list dict :=
  match nodes with
  | [] => rows
  | node :: nodes' =>
      let s := strip node in
      if negb (truthy s) then walk nodes' rows
      else if any_in stop_markers s then rows
      else if any_in status_tokens s then
        let parts := fragments s in
        if 8 <=? List.length parts
        then walk nodes' (rows ++ [make_row parts])
        else walk nodes' rows
      else walk nodes' rows
  end.

Definition parse_rows (doc : soup) : list dict :=
  let rows := [] in
  let anchor := find_anchor doc anchors None in
  if negb (found doc anchor) then rows
  else
    match anchor with
    | Some i => walk (find_all_next doc i) rows
    | None => rows
    end.

(** ** Exceptions, files and standard output *)

(** An exception, as far as the script looks at one: [str(e)]. *)
Inductive exn : Type := Exception (message : str).

Definition str_of_exn (e : exn) : str :=
  match e with Exception message => message end.

Inductive except (A : Type) : Type :=
| Return (a : A)
| Raise (e : exn).

Arguments Return {A} a.
Arguments Raise {A} e.

(** The files, by path, and the lines printed. *)
Record World : Type := mkWorld { files : dict; stdout : list str }.

(** [d[k] = v] *)
Fixpoint dict_set (d : dict) (k v : str) : dict :=
  match d with
  | [] => [(k, v)]
  | (k', v') :: d' =>
      if eqb_str k' k then (k', v) :: d' else (k', v') :: dict_set d' k v
  end.

Fixpoint lookup (d : dict) (k : str) : option str :=
  match d with
  | [] => None
  | (k', v) :: d' => if eqb_str k' k then Some v else lookup d' k
  end.

(** Code that changes the world and may raise. *)
Definition io (A : Type) : Type := World -> World * except A.

Definition ret {A : Type} (a : A) : io A := fun w => (w, Return a).

Definition bind {A B : Type} (m : io A) (k : A -> io B) : io B :=
  fun w =>
    match m w with
    | (w', Return a) => k a w'
    | (w', Raise e) => (w', Raise e)
    end.

Notation "x <- m ;; k" := (bind m (fun x => k))
  (at level 61, m at next level, right associativity).
Notation "m ;;; k" := (bind m (fun _ => k))
  (at level 61, right associativity).

(** [try: body except Exception as e: handler(e)] *)
Definition try_except {A : Type} (body : io A) (handler : exn -> io A) : io A :=
  fun w =>
    match body w with
    | (w', Return a) => (w', Return a)
    | (w', Raise e) => handler e w'
    end.

Definition lift {A : Type} (r : except A) : io A := fun w => (w, r).

Definition URL : str := lit "https://election.jamaicaobserver.com/2025/".
Definition results_json : str := lit "data/results.json".
Definition results_csv : str := lit "data/results.csv".

(** ** json.dumps(payload, indent=2) *)

Inductive json : Type :=
| JStr (s : str)
| JArr (items : list json)
| JObj (members : list (str * json)).

Definition hex_digit (n : N) : char :=
  (if n <? 10 then 48 + n else 87 + n)%N.

Definition u_escape (n : N) : str :=
  lit "\u" ++
  [ hex_digit ((n / 4096) mod 16); hex_digit ((n / 256) mod 16);
    hex_digit ((n / 16) mod 16); hex_digit (n mod 16) ]%N.

Definition quote_char : char := 34%N.
Definition backslash : char := 92%N.

(** One character of a string, as [ensure_ascii] output writes it. *)
Definition escape_char (c : char) : str :=
  (if c =? quote_char then [backslash; quote_char]
   else if c =? backslash then [backslash; backslash]
   else if c =? 10 then backslash :: lit "n"
   else if c =? 13 then backslash :: lit "r"
   else if c =? 9 then backslash :: lit "t"
   else if c =? 8 then backslash :: lit "b"
   else if c =? 12 then backslash :: lit "f"
   else if (32 <=? c) && (c <=? 126) then [c]
   else if c <? 65536 then u_escape c
   else u_escape (55296 + ((c - 65536) / 1024) mod 1024)
        ++ u_escape (56320 + (c - 65536) mod 1024))%N.

Definition encode_str (s : str) : str :=
  quote_char :: flat_map escape_char s ++ [quote_char].

Definition newline_indent (level : nat) : str :=
  10%N :: repeat 32%N (2 * level).

Fixpoint encode (level : nat) (v : json) : str :=
  match v with
  | JStr s => encode_str s
  | JArr [] => lit "[]"
  | JArr items =>
      lit "[" ++ newline_indent (S level)
      ++ join (lit "," ++ newline_indent (S level)) (map (encode (S level)) items)
      ++ newline_indent level ++ lit "]"
  | JObj [] => lit "{}"
  | JObj members =>
      lit "{" ++ newline_indent (S level)
      ++ join (lit "," ++ newline_indent (S level))
           (map (fun kv => match kv with
                           | (k, v') => encode_str k ++ lit ": " ++ encode (S level) v'
                           end) members)
      ++ newline_indent level ++ lit "}"
  end.

Definition json_dumps (v : json) : str := encode 0 v.

Definition json_of_row (r : dict) : json :=
  JObj (map (fun kv => (fst kv, JStr (snd kv))) r).

Definition json_of_rows (rows : list dict) : json :=
  JArr (map json_of_row rows).

(** ** Text files and their encoding *)

Fixpoint digits (d : Decimal.uint) : str :=
  match d with
  | Decimal.Nil => []
  | Decimal.D0 d' => 48%N :: digits d'
  | Decimal.D1 d' => 49%N :: digits d'
  | Decimal.D2 d' => 50%N :: digits d'
  | Decimal.D3 d' => 51%N :: digits d'
  | Decimal.D4 d' => 52%N :: digits d'
  | Decimal.D5 d' => 53%N :: digits d'
  | Decimal.D6 d' => 54%N :: digits d'
  | Decimal.D7 d' => 55%N :: digits d'
  | Decimal.D8 d' => 56%N :: digits d'
  | Decimal.D9 d' => 57%N :: digits d'
  end.

(** [str(n)] *)
Definition str_of_nat (n : nat) : str := digits (Nat.to_uint n).

(** The files are written with [encoding="utf-8"], which takes every code
    point of a string but the surrogates, U+D800 to U+DFFF. *)
Definition surrogate (c : char) : bool :=
  ((55296 <=? c) && (c <=? 57343))%N.

Definition utf8_encodable (s : str) : bool :=
  forallb (fun c => negb (surrogate c)) s.

(** The number of characters before the first surrogate, and the text
    from that surrogate on. *)
Fixpoint first_surrogate (s : str) : nat * str :=
  match s with
  | [] => (0, [])
  | c :: s' =>
      if surrogate c then (0, s)
      else let (n, rest) := first_surrogate s' in (S n, rest)
  end.

Fixpoint surrogate_run (s : str) : nat :=
  match s with
  | [] => 0
  | c :: s' => if surrogate c then S (surrogate_run s') else 0
  end.

(** The [UnicodeEncodeError] of the codec, for a text it refuses: it names
    the first run of surrogates. *)
Definition utf8_error (s : str) : exn :=
  let (start, rest) := first_surrogate s in
  match rest, surrogate_run rest with
  | c :: _, 1 =>
      Exception (lit "'utf-8' codec can't encode character '" ++ u_escape c
                 ++ lit "' in position " ++ str_of_nat start
                 ++ lit ": surrogates not allowed")
  | _, n =>
      Exception (lit "'utf-8' codec can't encode characters in position "
                 ++ str_of_nat start ++ lit "-" ++ str_of_nat (start + n - 1)
                 ++ lit ": surrogates not allowed")
  end.

(** [open("w")]: the file is there and empty. *)
Definition open_w (path : str) : io unit :=
  fun w => (mkWorld (dict_set (files w) path []) (stdout w), Return tt).

(** [f.write(text)] on a file opened for writing: the text is encoded and
    added to the file, or the codec raises and the file stays as it is. *)
Definition file_write (path text : str) : io unit :=
  fun w =>
    if utf8_encodable text
    then (mkWorld (dict_set (files w) path (get (files w) path [] ++ text)) (stdout w),
          Return tt)
    else (w, Raise (utf8_error text)).

(** [path.write_text(content, encoding="utf-8")]: open, then write. *)
Definition write_text (path content : str) : io unit :=
  open_w path ;;; file_write path content.

(** ** csv.DictWriter, excel dialect *)

Definition delimiter : char := 44%N.
Definition lineterminator : str := [13%N; 10%N].

(** A field is quoted when it has the delimiter, the quote character or a
    character of the line terminator. *)
Definition special (c : char) : bool :=
  (c =? delimiter)%N || (c =? quote_char)%N || existsb (N.eqb c) lineterminator.

Definition needs_quotes (field : str) : bool := existsb special field.

Definition double_quotes (field : str) : str :=
  flat_map (fun c => if (c =? quote_char)%N then [quote_char; quote_char] else [c]) field.

Definition csv_field (field : str) : str :=
  if needs_quotes field
  then quote_char :: double_quotes field ++ [quote_char]
  else field.

(** The record of a row: its fields joined by the delimiter; when there
    are fields and the record is still empty (one empty field), a pair of
    quotes is written for it. *)
Definition csv_record (fields : list str) : str :=
  let rec := join [delimiter] (map csv_field fields) in
  match fields, rec with
  | _ :: _, [] => [quote_char; quote_char]
  | _, _ => rec
  end.

(** [writer.writerow(fields)] *)
Definition writer_writerow (path : str) (fields : list str) : io unit :=
  file_write path (csv_record fields ++ lineterminator).

(** [dict(zip(ks, vs))] and [{k: f(k) for k in ks}] *)
Definition dict_of (items : list (str * str)) : dict :=
  fold_left (fun d kv => dict_set d (fst kv) (snd kv)) items [].

Definition dict_comp (f : str -> str) (ks : list str) : dict :=
  dict_of (map (fun k => (k, f k)) ks).

Definition member (k : str) (ks : list str) : bool := existsb (eqb_str k) ks.

(** [DictWriter._dict_to_list] with [extrasaction="raise"] and
    [restval=""]: a key outside the field names is a [ValueError]. *)
Definition dict_to_list (fieldnames : list str) (rowdict : dict) : except (list str) :=
  let wrong_fields := filter (fun k => negb (member k fieldnames)) (keys rowdict) in
  match wrong_fields with
  | _ :: _ =>
      Raise (Exception (lit "dict contains fields not in fieldnames: "
                        ++ join (lit ", ") wrong_fields))
  | [] => Return (map (fun key => get rowdict key []) fieldnames)
  end.

Definition writerow (path : str) (fieldnames : list str) (rowdict : dict) : io unit :=
  row <- lift (dict_to_list fieldnames rowdict) ;;
  writer_writerow path row.

Definition writeheader (path : str) (fieldnames : list str) : io unit :=
  let header := dict_of (combine fieldnames fieldnames) in
  writerow path fieldnames header.

(** ** The pipeline *)

Record response : Type := mkResponse { status_code : N; text : str }.

(** What the run depends on outside the script: the answer of the network
    to the GET request, the error [raise_for_status] builds for a response,
    the parse of the markup (its text nodes in document order, or the
    parser's exception), the formatted clock reading, and what the
    encoder of standard output does with a text: it takes it, or raises
    its [UnicodeEncodeError]. *)
Record Env : Type := mkEnv {
  requests_get : str -> except response;
  http_error : response -> exn;
  BeautifulSoup : str -> except soup;
  gmtime : str;
  stdout_encode : str -> except unit
}.

Fixpoint for_each {A : Type} (xs : list A) (body : A -> io unit) : io unit :=
  match xs with
  | [] => ret tt
  | x :: xs' => body x ;;; for_each xs' body
  end.

Section Pipeline.

Variable env : Env.

(** [print(line)]: the line goes to standard output, or its encoder
    raises and nothing is printed. *)
Definition print (line : str) : io unit :=
  fun w =>
    match stdout_encode env line with
    | Return _ => (mkWorld (files w) (stdout w ++ [line]), Return tt)
    | Raise e => (w, Raise e)
    end.

Definition raise_for_status (r : response) : except unit :=
  if ((400 <=? status_code r) && (status_code r <? 600))%N
  then Raise (http_error env r)
  else Return tt.

Definition fetch_html (url : str) : io str :=
  r <- lift (requests_get env url) ;;
  lift (raise_for_status r) ;;;
  ret (text r).

(** [parse_rows(html)]: the tree is built, then searched. *)
Definition parse_rows_html (html : str) : io (list dict) :=
  doc <- lift (BeautifulSoup env html) ;;
  ret (parse_rows doc).

Definition write_artifacts (rows : list dict) : io unit :=
  let ts := gmtime env in
  let payload :=
    JObj [ (lit "source", JStr URL); (lit "fetched_at", JStr ts);
           (lit "rows", json_of_rows rows) ] in
  write_text results_json (json_dumps payload) ;;;
  open_w results_csv ;;;
  writeheader results_csv FIELDS ;;;
  for_each rows
    (fun r => writerow results_csv FIELDS (dict_comp (fun k => get r k []) FIELDS)) ;;;
  print (lit "Saved " ++ str_of_nat (List.length rows) ++ lit " rows at " ++ ts).

(** The payload written when the fetch or the parse raised [e]. *)
Definition failure_payload (ts : str) (error : str) : json :=
  JObj [ (lit "source", JStr URL); (lit "fetched_at", JStr ts);
         (lit "rows", JArr []); (lit "error", JStr error) ].

Definition main : io nat :=
  outcome <-
    try_except
      (html <- fetch_html URL ;;
       rows <- parse_rows_html html ;;
       ret (inl rows))
      (fun e =>
         let ts := gmtime env in
         write_text results_json (json_dumps (failure_payload ts (str_of_exn e))) ;;;
         open_w results_csv ;;;
         writeheader results_csv FIELDS ;;;
         print (lit "Error: " ++ str_of_exn e) ;;;
         ret (inr 0)) ;;
  match outcome with
  | inr code => ret code
  | inl rows => write_artifacts rows ;;; ret 0
  end.

(** [raise SystemExit(main())]: the exit status is what [main] returns,
    and 1 when an exception leaves [main]. *)
Definition run (w : World) : World * nat :=
  match main w with
  | (w', Return code) => (w', code)
  | (w', Raise _) => (w', 1)
  end.

End Pipeline.

(** ** Reading the CSV file back *)

Definition CR : char := 13%N.
Definition LF : char := 10%N.

(** Modelled from the spec: the reader of the round trip, which the
    repository does not have (the script only writes [results.csv]).  It
    is taken to be the counterpart of the writer: [csv.reader] over the
    file opened with [newline=''], for the same dialect.  This is the
    iteration of the file by lines, each with its ending: a line ends
    after a line feed, after a carriage return and line feed, or after a
    lone carriage return.  [cur] is the line being collected, reversed;
    [cr] tells that it ends with a carriage return. *)
Fixpoint readlines_go (cur : str) (cr : bool) (s : str) : list str :=
  match s with
  | [] => match cur with [] => [] | _ :: _ => [rev cur] end
  | c :: s' =>
      if (c =? LF)%N then rev (c :: cur) :: readlines_go [] false s'
      else if cr then rev cur :: readlines_go [c] (c =? CR)%N s'
      else readlines_go (c :: cur) (c =? CR)%N s'
  end.

Definition readlines (s : str) : list str := readlines_go [] false s.

Inductive ParserState : Type :=
| START_RECORD
| START_FIELD
| IN_FIELD
| IN_QUOTED_FIELD
| QUOTE_IN_QUOTED_FIELD
| EAT_CRNL.

(** The reader: its state, the field being collected and the fields of the
    record so far. *)
Record Reader : Type := mkReader {
  state : ParserState;
  field : str;
  fields : list str
}.

(** What the state machine is fed: a character, or the end of a line. *)
Inductive input : Type :=
| Char (c : char)
| EOL.

Definition parse_reset : Reader := mkReader START_RECORD [] [].

Definition parse_save_field (r : Reader) (st : ParserState) : Reader :=
  mkReader st [] (fields r ++ [field r]).

Definition parse_add_char (r : Reader) (c : char) (st : ParserState) : Reader :=
  mkReader st (field r ++ [c]) (fields r).

Definition set_state (r : Reader) (st : ParserState) : Reader :=
  mkReader st (field r) (fields r).

Definition is_newline (i : input) : bool :=
  match i with Char c => (c =? LF)%N || (c =? CR)%N | EOL => false end.

Definition start_field (r : Reader) (i : input) : except Reader :=
  match i with
  | EOL => Return (parse_save_field r START_RECORD)
  | Char c =>
      if is_newline i then Return (parse_save_field r EAT_CRNL)
      else if (c =? quote_char)%N then Return (set_state r IN_QUOTED_FIELD)
      else if (c =? delimiter)%N then Return (parse_save_field r START_FIELD)
      else Return (parse_add_char r c IN_FIELD)
  end.

(** Modelled from the spec: the state machine of the reader, standard CSV
    reading as [parse_process_char] does it for the excel dialect: doubled
    quotes, no escape character, initial spaces kept, not strict. *)
Definition parse_process_char (r : Reader) (i : input) : except Reader :=
  match state r with
  | START_RECORD =>
      match i with
      | EOL => Return r
      | Char _ =>
          if is_newline i then Return (set_state r EAT_CRNL)
          else start_field r i
      end
  | START_FIELD => start_field r i
  | IN_FIELD =>
      match i with
      | EOL => Return (parse_save_field r START_RECORD)
      | Char c =>
          if is_newline i then Return (parse_save_field r EAT_CRNL)
          else if (c =? delimiter)%N then Return (parse_save_field r START_FIELD)
          else Return (parse_add_char r c IN_FIELD)
      end
  | IN_QUOTED_FIELD =>
      match i with
      | EOL => Return r
      | Char c =>
          if (c =? quote_char)%N then Return (set_state r QUOTE_IN_QUOTED_FIELD)
          else Return (parse_add_char r c IN_QUOTED_FIELD)
      end
  | QUOTE_IN_QUOTED_FIELD =>
      match i with
      | EOL => Return (parse_save_field r START_RECORD)
      | Char c =>
          if (c =? quote_char)%N then Return (parse_add_char r c IN_QUOTED_FIELD)
          else if (c =? delimiter)%N then Return (parse_save_field r START_FIELD)
          else if is_newline i then Return (parse_save_field r EAT_CRNL)
          else Return (parse_add_char r c IN_FIELD)
      end
  | EAT_CRNL =>
      match i with
      | EOL => Return (set_state r START_RECORD)
      | Char _ =>
          if is_newline i then Return r
          else Raise (Exception (lit "new-line character seen in unquoted field - do you need to open the file with newline=''?"))
      end
  end.

(** The characters of a line, then its end. *)
Fixpoint parse_line (r : Reader) (line : str) : except Reader :=
  match line with
  | [] => parse_process_char r EOL
  | c :: line' =>
      match parse_process_char r (Char c) with
      | Return r' => parse_line r' line'
      | Raise e => Raise e
      end
  end.

Definition is_start_record (st : ParserState) : bool :=
  match st with START_RECORD => true | _ => false end.

Definition is_in_quoted_field (st : ParserState) : bool :=
  match st with IN_QUOTED_FIELD => true | _ => false end.

Definition except_map {A B : Type} (f : A -> B) (r : except A) : except B :=
  match r with
  | Return a => Return (f a)
  | Raise e => Raise e
  end.

(** Modelled from the spec: the rows of the reader,
    [list(csv.reader(lines))].  A record is complete when the machine is
    back in [START_RECORD] at the end of a line; at the end of the input a
    record under way is kept when a field is being collected or a quoted
    field is open. *)
Fixpoint reader_rows (r : Reader) (lines : list str) : except (list (list str)) :=
  match lines with
  | [] =>
      if truthy (field r) || is_in_quoted_field (state r)
      then Return [fields (parse_save_field r (state r))]
      else Return []
  | line :: lines' =>
      match parse_line r line with
      | Raise e => Raise e
      | Return r' =>
          if is_start_record (state r')
          then except_map (cons (fields r')) (reader_rows parse_reset lines')
          else reader_rows r' lines'
      end
  end.

(** Modelled from the spec: re-reading the CSV file, from its text to its
    rows, the header row first. *)
Definition csv_reader (content : str) : except (list (list str)) :=
  reader_rows parse_reset (readlines content).

(** The same reading seen as one pass over the characters of the text:
    [inject] gives what the state machine is fed, the characters with the
    line ends between them, and [consume] runs the machine over that. *)
Inductive linestate : Type :=
| Fresh     (* at the start of a line *)
| Mid       (* inside a line *)
| AfterCR.  (* after a carriage return that may still be followed by a line feed *)

Fixpoint inject (ls : linestate) (s : str) : list input :=
  match s with
  | [] => match ls with Fresh => [] | _ => [EOL] end
  | c :: s' =>
      if (c =? LF)%N then Char c :: EOL :: inject Fresh s'
      else
        match ls with AfterCR => [EOL] | _ => [] end
        ++ Char c :: inject (if (c =? CR)%N then AfterCR else Mid) s'
  end.

Definition feed (lines : list str) : list input :=
  flat_map (fun line => map Char line ++ [EOL]) lines.

Fixpoint consume (r : Reader) (inputs : list input) : except (list (list str)) :=
  match inputs with
  | [] =>
      if truthy (field r) || is_in_quoted_field (state r)
      then Return [fields (parse_save_field r (state r))]
      else Return []
  | i :: inputs' =>
      match parse_process_char r i with
      | Raise e => Raise e
      | Return r' =>
          match i with
          | EOL =>
              if is_start_record (state r')
              then except_map (cons (fields r')) (consume parse_reset inputs')
              else consume r' inputs'
          | Char _ => consume r' inputs'
          end
      end
  end.

Definition linestate_of (cur : str) (cr : bool) : linestate :=
  if cr then AfterCR else match cur with [] => Fresh | _ :: _ => Mid end.

(** ** Predicates used in the statements *)

(** The states in which the machine expects the first character of a
    field. *)
Definition expecting (st : ParserState) : Prop :=
  st = START_RECORD \/ st = START_FIELD.

(** A string that starts with a character that is not white space. *)
Definition solid_head (m : str) : bool :=
  match m with [] => false | c :: _ => negb (isspace c) end.

(** [a] is the first node (after the nodes [pre]) whose text has [label]
    as a substring. *)
Definition first_with (label : str) (pre : list str) (a : str) : Prop :=
  Forall (fun x => contains label x = false) pre /\ contains label a = true.

Definition label1 : str := lit "Detailed Results by Constituency".
Definition label2 : str := lit "Constituency Results".

(** The node [a], preceded by [pre] and followed by [suf], is the anchor:
    the first node with the first phrase, or, when no node of the document
    has the first phrase, the first node with the second. *)
Definition anchored (pre : list str) (a : str) (suf : list str) : Prop :=
  first_with label1 pre a \/
  (Forall (fun x => contains label1 x = false) (pre ++ a :: suf) /\
   first_with label2 pre a).

Definition percent_sign : char := 37%N.

Definition strip_percent (s : str) : str :=
  filter (fun x => negb (percent_sign =? x)%N) s.

Definition scenario : soup :=
  [ lit "Constituency Results";
    lit "East Kingston  Kingston  Jane Doe  PNP  12345  55.2%  Declared  42";
    copyright_sign ++ lit " 2025" ].

Definition scenario_row : dict :=
  [ (lit "constituency", lit "East Kingston"); (lit "parish", lit "Kingston");
    (lit "candidate", lit "Jane Doe"); (lit "party", lit "PNP");
    (lit "votes", lit "12345"); (lit "percent", lit "55.2");
    (lit "status", lit "Declared"); (lit "boxes", lit "42") ].

(** A node that is not a stop-marker node. *)
Definition nonstop (node : str) : Prop := any_in stop_markers node = false.

(** The row whose fields are the given values, in the order of [FIELDS]. *)
Definition row_of (p0 p1 p2 p3 p4 p5 p6 p7 : str) : dict :=
  [ (lit "constituency", p0); (lit "parish", p1); (lit "candidate", p2);
    (lit "party", p3); (lit "votes", p4); (lit "percent", p5);
    (lit "status", p6); (lit "boxes", p7) ].

(** A document whose row node has its status token in the first fragment,
    and one whose sixth fragment is made of percent signs only. *)
Definition positional_doc : soup :=
  [ lit "Constituency Results"; lit "Declared  b  c  d  e  f  g  h" ].

Definition all_percent_doc : soup :=
  [ lit "Constituency Results"; lit "a  b  c  d  e  %%  Counting  h" ].

(** A document where the second phrase comes first in document order. *)
Definition priority_doc : soup :=
  [ lit "Constituency Results"; lit "a  b  c  d  e  1%  Counting  h";
    lit "Detailed Results by Constituency"; lit "s  t  u  v  w  2%  Declared  z" ].

(** The text of the CSV file: the header line, then a line per row. *)
Definition csv_line (values : list str) : str :=
  join [delimiter] (map csv_field values) ++ lineterminator.

Definition row_values (r : dict) : list str :=
  map (fun k => get r k []) FIELDS.

Definition header_line : str :=
  lit "constituency,parish,candidate,party,votes,percent,status,boxes"
  ++ lineterminator.

Definition csv_text (rows : list dict) : str :=
  header_line ++ List.concat (map (fun r => csv_line (row_values r)) rows).

(** The payload of a successful run. *)
Definition success_payload (ts : str) (rows : list dict) : json :=
  JObj [ (lit "source", JStr URL); (lit "fetched_at", JStr ts);
         (lit "rows", json_of_rows rows) ].

(** A standard output encoded in UTF-8. *)
Definition utf8_stdout (line : str) : except unit :=
  if utf8_encodable line then Return tt else Raise (utf8_error line).

(** Two environments: one where the request times out, one where it
    raises an exception that carries no message; and a world without
    files. *)
Definition timeout_env : Env :=
  mkEnv (fun _ => Raise (Exception (lit "Read timed out. (read timeout=30)")))
        (fun _ => Exception (lit "404 Client Error"))
        (fun _ => Return [])
        (lit "2025-09-03T12:00:00Z")
        utf8_stdout.


Definition empty_world : World := mkWorld [] [].

(** The fetch or the parse of a run raises [e]. *)
Definition scrape_raises (env : Env) (w : World) (e : exn) : Prop :=
  snd (fetch_html env URL w) = Raise e \/
  exists html,
    snd (fetch_html env URL w) = Return html /\
    snd (parse_rows_html env html w) = Raise e.


(** ** The walk as a pipeline *)

(** The nodes before the first stop-marker node. *)
Fixpoint before_stop (nodes : list str) : list str :=
  match nodes with
  | [] => []
  | node :: nodes' =>
      if any_in stop_markers node then [] else node :: before_stop nodes'
  end.

(** A node that yields a row: a status token in its trimmed text and at
    least 8 fragments. *)
Definition qualifies (node : str) : bool :=
  any_in status_tokens (strip node) && (8 <=? List.length (fragments (strip node))).

Definition row_of_node (node : str) : dict := make_row (fragments (strip node)).

Definition double_space : str := lit "  ".

(** The fetch and the parse of a run both return, the parse with [rows]. *)
Definition scrape_returns (env : Env) (w : World) (rows : list dict) : Prop :=
  exists html,
    snd (fetch_html env URL w) = Return html /\
    snd (parse_rows_html env html w) = Return rows.

(** The characters [json.dumps] leaves in its output: the line feed and
    the printable ASCII characters. *)
Definition printable (c : char) : bool :=
  ((c =? 10) || (32 <=? c) && (c <=? 126))%N.

(** An environment where the page is served and parses to the scenario,
    and one where the server answers 404. *)
Definition ok_env : Env :=
  mkEnv (fun _ => Return (mkResponse 200 (lit "<html>...</html>")))
        (fun _ => Exception (lit "404 Client Error"))
        (fun _ => Return scenario)
        (lit "2025-09-03T12:00:00Z")
        utf8_stdout.

Definition not_found_env : Env :=
  mkEnv (fun _ => Return (mkResponse 404 (lit "<html>Not Found</html>")))
        (fun _ => Exception (lit "404 Client Error: Not Found for url"))
        (fun _ => Return scenario)
        (lit "2025-09-03T12:00:00Z")
        utf8_stdout.

(** A document whose sixth fragment has a percent sign between two
    spaces. *)
Definition spaced_percent_doc : soup :=
  [ lit "Constituency Results"; lit "a  b  c  d  e  1 % 2  Counting  h" ].

(** A computation that leaves every file other than the two artifacts as
    it was. *)
Definition other_files_kept {A : Type} (m : io A) : Prop :=
  forall w p,
    p <> results_json -> p <> results_csv ->
    lookup (files (fst (m w))) p = lookup (files w) p.

(** A world with a file that is not one of the artifacts. *)
Definition readme_world : World :=
  mkWorld [ (lit "README.md", lit "Jamaica election live");
            (lit "data/results.csv", lit "stale") ] [].

(** A text made of line feeds and printable ASCII characters only. *)
Definition ascii_only (s : str) : Prop := Forall (fun c => printable c = true) s.

(** Two rows that differ by a key outside the eight fields. *)
Definition annotated_row : dict := scenario_row ++ [ (lit "note", lit "recount") ].

(** ** What reaches the files and standard output *)

(** A row whose eight values can all be written to the CSV file. *)
Definition row_writable (r : dict) : bool :=
  forallb utf8_encodable (row_values r).

(** The rows before the first one that cannot be written. *)
Fixpoint writable_prefix (rows : list dict) : list dict :=
  match rows with
  | [] => []
  | r :: rows' => if row_writable r then r :: writable_prefix rows' else []
  end.

(** The line printed at the end of [write_artifacts] and the one printed
    by the handler of [main]. *)
Definition saved_line (env : Env) (rows : list dict) : str :=
  lit "Saved " ++ str_of_nat (List.length rows) ++ lit " rows at " ++ gmtime env.

Definition error_line (e : exn) : str := lit "Error: " ++ str_of_exn e.

(** A text with a lone surrogate, a row that holds it, and an environment
    where the request raises an exception whose text is that text. *)
Definition lone_surrogate : str := lit "St. " ++ [55296%N] ++ lit " Ann".

Definition surrogate_row : dict :=
  [ (lit "constituency", lone_surrogate); (lit "parish", lit "St. Ann") ].


(** ** Strings: substring test and [strip] *)

Lemma eqb_str_true (a b : str) : eqb_str a b = true <-> a = b.
Proof.
  revert b. induction a as [|x a IH]; intros [|y b]; simpl;
    try (split; [discriminate | congruence]); [now split|].
  rewrite andb_true_iff, N.eqb_eq, IH. split; [intros [-> ->] | intros H; injection H]; auto.
Qed.

Lemma eqb_str_refl (a : str) : eqb_str a a = true.
Proof. now apply eqb_str_true. Qed.

Lemma truthy_true (s : str) : truthy s = true <-> s <> [].
Proof. destruct s; simpl; split; congruence. Qed.

Lemma startswith_spec (p s : str) :
  startswith p s = true <-> exists t, s = p ++ t.
Proof.
  revert s. induction p as [|a p IH]; intros s; simpl.
  - split; eauto.
  - destruct s as [|b s].
    + split; [discriminate | intros [t Ht]; discriminate].
    + rewrite andb_true_iff, N.eqb_eq, IH. split.
      * intros [-> [t ->]]. now exists t.
      * intros [t Ht]. injection Ht as -> ->. eauto.
Qed.

Lemma contains_spec (sub s : str) :
  contains sub s = true <-> exists l r, s = l ++ sub ++ r.
Proof.
  induction s as [|c s IH].
  - simpl. rewrite orb_false_r, startswith_spec. split.
    + intros [t Ht]. now exists [], t.
    + intros [l [r H]]. symmetry in H.
      apply app_eq_nil in H as [-> H]. exists r. now rewrite H.
  - change (contains sub (c :: s))
      with (startswith sub (c :: s) || contains sub s).
    rewrite orb_true_iff, startswith_spec, IH. split.
    + intros [[t Ht] | [l [r Hs]]].
      * now exists [], t.
      * exists (c :: l), r. simpl. now rewrite Hs.
    + intros [[|c' l] [r H]].
      * left. now exists r.
      * right. injection H as -> ->. now exists l, r.
Qed.

Lemma contains_rev (sub s : str) :
  contains (rev sub) (rev s) = contains sub s.
Proof.
  apply eq_true_iff_eq. rewrite !contains_spec. split.
  - intros [l [r H]]. exists (rev r), (rev l).
    apply (f_equal (@rev char)) in H.
    now rewrite rev_involutive, !rev_app_distr, rev_involutive, <- app_assoc in H.
  - intros [l [r ->]]. exists (rev r), (rev l).
    now rewrite !rev_app_distr, <- app_assoc.
Qed.

Lemma contains_lstrip (m s : str) :
  solid_head m = true -> contains m (lstrip s) = contains m s.
Proof.
  destruct m as [|c m]; [discriminate|]. simpl. intros Hc.
  induction s as [|x s IH]; [reflexivity|].
  simpl lstrip. destruct (isspace x) eqn:Hx; [|reflexivity].
  rewrite IH.
  change (contains (c :: m) (x :: s))
    with (startswith (c :: m) (x :: s) || contains (c :: m) s).
  simpl startswith. destruct (N.eqb_spec c x) as [->|_]; [|reflexivity].
  rewrite Hx in Hc. discriminate.
Qed.

(** Stripping a string neither hides nor reveals a substring whose two
    ends are not white space. *)
Lemma contains_strip (m s : str) :
  solid_head m = true -> solid_head (rev m) = true ->
  contains m (strip s) = contains m s.
Proof.
  intros Hh Ht. unfold strip, rstrip.
  rewrite <- (contains_rev m (rev _)), rev_involutive.
  rewrite (contains_lstrip _ _ Ht), contains_rev.
  now apply contains_lstrip.
Qed.

Lemma any_in_strip (ms : list str) (s : str) :
  forallb (fun m => solid_head m && solid_head (rev m)) ms = true ->
  any_in ms (strip s) = any_in ms s.
Proof.
  unfold any_in. induction ms as [|m ms IH]; simpl; [reflexivity|].
  rewrite !andb_true_iff. intros [[Hh Ht] Hms].
  now rewrite IH, contains_strip.
Qed.

Lemma stop_markers_strip (s : str) :
  any_in stop_markers (strip s) = any_in stop_markers s.
Proof. now apply any_in_strip. Qed.

Lemma status_tokens_strip (s : str) :
  any_in status_tokens (strip s) = any_in status_tokens s.
Proof. now apply any_in_strip. Qed.

Lemma contains_truthy (m s : str) :
  truthy m = true -> contains m s = true -> truthy s = true.
Proof.
  intros Hm H. apply contains_spec in H as [l [r ->]].
  destruct l; [destruct m; [discriminate|] |]; reflexivity.
Qed.

Lemma any_in_truthy (ms : list str) (s : str) :
  forallb truthy ms = true -> any_in ms s = true -> truthy s = true.
Proof.
  unfold any_in. rewrite forallb_forall, existsb_exists.
  intros Hms [m [Hin Hc]]. apply (contains_truthy m); [|exact Hc].
  now apply Hms.
Qed.

(** ** Locating the anchor *)

Lemma find_none (p : str -> bool) (doc : soup) :
  find p doc = None <-> Forall (fun x => p x = false) doc.
Proof.
  induction doc as [|x doc IH]; simpl.
  - split; auto.
  - destruct (p x) eqn:Hx.
    + split; [discriminate|]. intros H. inversion H; congruence.
    + destruct (find p doc); simpl.
      * split; [discriminate|]. intros H. inversion H; subst.
        apply IH in H3. discriminate.
      * split; auto. intros _. constructor; [exact Hx | now apply IH].
Qed.

Lemma find_first (p : str -> bool) (pre : list str) (a : str) (suf : list str) :
  Forall (fun x => p x = false) pre -> p a = true ->
  find p (pre ++ a :: suf) = Some (List.length pre).
Proof.
  intros Hpre Ha. induction Hpre as [|x pre Hx _ IH]; simpl.
  - now rewrite Ha.
  - now rewrite Hx, IH.
Qed.

Lemma find_some (p : str -> bool) (doc : soup) (i : nat) :
  find p doc = Some i ->
  exists pre a suf,
    doc = pre ++ a :: suf /\ List.length pre = i /\
    Forall (fun x => p x = false) pre /\ p a = true.
Proof.
  revert i. induction doc as [|x doc IH]; simpl; intros i H; [discriminate|].
  destruct (p x) eqn:Hx.
  - injection H as <-. now exists [], x, doc.
  - destruct (find p doc) as [j|]; [|discriminate]. injection H as <-.
    destruct (IH j eq_refl) as [pre [a [suf [-> [<- [Hpre Ha]]]]]].
    exists (x :: pre), a, suf. repeat split; auto.
Qed.

Lemma found_at (pre : list str) (a : str) (suf : list str) :
  found (pre ++ a :: suf) (Some (List.length pre)) = truthy a.
Proof.
  unfold found. rewrite nth_error_app2 by lia.
  now rewrite Nat.sub_diag.
Qed.

Lemma find_all_next_at (pre : list str) (a : str) (suf : list str) :
  find_all_next (pre ++ a :: suf) (List.length pre) = suf.
Proof.
  unfold find_all_next. induction pre as [|x pre IH]; [reflexivity|].
  exact IH.
Qed.

Lemma find_anchor_anchored (pre : list str) (a : str) (suf : list str) :
  anchored pre a suf ->
  find_anchor (pre ++ a :: suf) anchors None = Some (List.length pre).
Proof.
  change anchors with [label1; label2]. cbn [find_anchor].
  intros [[Hpre Ha] | [Hnone [Hpre Ha]]].
  - rewrite (find_first (fun s => contains label1 s) pre a suf Hpre Ha), found_at.
    now rewrite (contains_truthy label1 a eq_refl Ha).
  - apply (find_none (fun s => contains label1 s)) in Hnone. rewrite Hnone.
    cbn [found].
    rewrite (find_first (fun s => contains label2 s) pre a suf Hpre Ha), found_at.
    now rewrite (contains_truthy label2 a eq_refl Ha).
Qed.

Lemma parse_rows_anchored (pre : list str) (a : str) (suf : list str) :
  anchored pre a suf -> parse_rows (pre ++ a :: suf) = walk suf [].
Proof.
  intros H. unfold parse_rows.
  rewrite (find_anchor_anchored _ _ _ H), found_at, find_all_next_at.
  destruct H as [[_ Ha] | [_ [_ Ha]]].
  - now rewrite (contains_truthy label1 a eq_refl Ha).
  - now rewrite (contains_truthy label2 a eq_refl Ha).
Qed.

(** Every document either has no node with an anchor phrase, or splits
    around its anchor. *)
Lemma anchored_or_none (doc : soup) :
  (Forall (fun x => contains label1 x = false) doc /\
   Forall (fun x => contains label2 x = false) doc) \/
  exists pre a suf, doc = pre ++ a :: suf /\ anchored pre a suf.
Proof.
  destruct (find (fun s => contains label1 s) doc) as [i|] eqn:H1.
  - right. destruct (find_some _ _ _ H1) as [pre [a [suf [-> [_ [Hp Ha]]]]]].
    exists pre, a, suf. split; [reflexivity|]. left. now split.
  - apply find_none in H1.
    destruct (find (fun s => contains label2 s) doc) as [i|] eqn:H2.
    + right. destruct (find_some _ _ _ H2) as [pre [a [suf [-> [_ [Hp Ha]]]]]].
      exists pre, a, suf. split; [reflexivity|]. right. now repeat split.
    + left. apply find_none in H2. now split.
Qed.

Lemma anchored_incl (pre : list str) (a : str) (suf suf' : list str) :
  incl suf' suf -> anchored pre a suf -> anchored pre a suf'.
Proof.
  intros Hincl [H | [Hnone H]]; [now left | right]. split; [|exact H].
  rewrite Forall_forall in *. intros x Hx. apply Hnone.
  apply in_app_or in Hx as [Hx | [<- | Hx]].
  - apply in_or_app. now left.
  - apply in_or_app. right. now left.
  - apply in_or_app. right. right. now apply Hincl.
Qed.

(** ** The walk over the nodes after the anchor *)

Lemma walk_acc (nodes : list str) (rows : list dict) :
  walk nodes rows = rows ++ walk nodes [].
Proof.
  revert rows. induction nodes as [|node nodes IH]; intros rows; cbn [walk].
  - now rewrite app_nil_r.
  - destruct (truthy (strip node)); cbn [negb]; [|apply IH].
    destruct (any_in stop_markers (strip node)); [now rewrite app_nil_r|].
    destruct (any_in status_tokens (strip node)); [|apply IH].
    destruct (8 <=? _); [|apply IH].
    rewrite IH, (IH ([] ++ _)). now rewrite <- app_assoc.
Qed.

Lemma walk_stop (node : str) (nodes : list str) (rows : list dict) :
  any_in stop_markers node = true -> walk (node :: nodes) rows = rows.
Proof.
  intros H. rewrite <- stop_markers_strip in H. cbn [walk].
  rewrite (any_in_truthy stop_markers _ eq_refl H), H. reflexivity.
Qed.

Lemma walk_app (before rest : list str) (rows : list dict) :
  Forall (fun x => any_in stop_markers x = false) before ->
  walk (before ++ rest) rows = walk rest (walk before rows).
Proof.
  intros H. revert rows.
  induction H as [|node before Hn _ IH]; intros rows; [reflexivity|].
  rewrite <- stop_markers_strip in Hn. cbn [app walk]. rewrite Hn.
  destruct (truthy (strip node)); cbn [negb]; [|apply IH].
  destruct (any_in status_tokens (strip node)); [|apply IH].
  destruct (8 <=? _); apply IH.
Qed.

(** What the walk does with a node that is not a stop-marker node. *)
Lemma walk_cons (node : str) (nodes : list str) (rows : list dict) :
  any_in stop_markers node = false ->
  walk (node :: nodes) rows =
  walk nodes
    (if any_in status_tokens (strip node) && (8 <=? List.length (fragments (strip node)))
     then rows ++ [make_row (fragments (strip node))] else rows).
Proof.
  intros Hn. rewrite <- stop_markers_strip in Hn. cbn [walk]. rewrite Hn.
  destruct (truthy (strip node)) eqn:Ht; cbn [negb andb].
  - destruct (any_in status_tokens (strip node)); [|reflexivity].
    now destruct (8 <=? _).
  - destruct (any_in status_tokens (strip node)) eqn:Hs; [|reflexivity].
    now rewrite (any_in_truthy status_tokens _ eq_refl Hs) in Ht.
Qed.

(** Every row comes from one of the nodes walked. *)
Lemma walk_origin (nodes : list str) (r : dict) :
  In r (walk nodes []) ->
  exists node,
    In node nodes /\ any_in stop_markers node = false /\
    any_in status_tokens (strip node) = true /\
    8 <= List.length (fragments (strip node)) /\
    r = make_row (fragments (strip node)).
Proof.
  induction nodes as [|node nodes IH]; [intros []|].
  destruct (any_in stop_markers node) eqn:Hn.
  - rewrite (walk_stop _ _ _ Hn). intros [].
  - rewrite (walk_cons _ _ _ Hn), walk_acc. intros H.
    apply in_app_or in H as [H|H].
    + destruct (any_in status_tokens (strip node)) eqn:Hs; [|destruct H].
      destruct (8 <=? _) eqn:H8; [|destruct H].
      destruct H as [<- | []]. exists node. apply Nat.leb_le in H8.
      repeat split; auto. now left.
    + destruct (IH H) as [n [Hin Hrest]]. exists n. split; [now right | exact Hrest].
Qed.

Lemma walk_skip (before : list str) (node : str) (after : list str) (rows : list dict) :
  any_in stop_markers node = false ->
  any_in status_tokens (strip node) && (8 <=? List.length (fragments (strip node))) = false ->
  walk (before ++ node :: after) rows = walk (before ++ after) rows.
Proof.
  intros Hn Hf. revert rows.
  induction before as [|x before IH]; intros rows; cbn [app].
  - now rewrite (walk_cons _ _ _ Hn), Hf.
  - destruct (any_in stop_markers x) eqn:Hx.
    + now rewrite !(walk_stop _ _ _ Hx).
    + rewrite !(walk_cons _ _ _ Hx). apply IH.
Qed.

Lemma walk_cut (before : list str) (node : str) (after : list str) (rows : list dict) :
  any_in stop_markers node = true ->
  walk (before ++ node :: after) rows = walk before rows.
Proof.
  intros Hn. revert rows.
  induction before as [|x before IH]; intros rows; cbn [app].
  - now rewrite (walk_stop _ _ _ Hn).
  - destruct (any_in stop_markers x) eqn:Hx.
    + now rewrite !(walk_stop _ _ _ Hx).
    + rewrite !(walk_cons _ _ _ Hx). apply IH.
Qed.

(** A node before every stop marker, with a status token and at least 8
    fragments, puts its row between those of the nodes before it and those
    of the nodes after it. *)
Lemma walk_emit (before : list str) (node : str) (after : list str) :
  Forall (fun x => any_in stop_markers x = false) (before ++ [node]) ->
  any_in status_tokens (strip node) = true ->
  8 <= List.length (fragments (strip node)) ->
  walk (before ++ node :: after) [] =
  walk before [] ++ [make_row (fragments (strip node))] ++ walk after [].
Proof.
  intros Hb Hs H8. apply Forall_app in Hb as [Hb Hn].
  inversion Hn as [|? ? Hn' _]; subst.
  rewrite (walk_app _ _ _ Hb), (walk_cons _ _ _ Hn'), Hs.
  apply Nat.leb_le in H8. rewrite H8. cbn [andb].
  now rewrite walk_acc, <- app_assoc.
Qed.

Lemma parse_rows_none (doc : soup) :
  Forall (fun x => contains label1 x = false) doc ->
  Forall (fun x => contains label2 x = false) doc ->
  parse_rows doc = [].
Proof.
  intros H1 H2. unfold parse_rows.
  change anchors with [label1; label2]. cbn [find_anchor].
  apply (find_none (fun s => contains label1 s)) in H1.
  apply (find_none (fun s => contains label2 s)) in H2.
  now rewrite H1, H2.
Qed.

Lemma parse_rows_origin (doc : soup) (r : dict) :
  In r (parse_rows doc) ->
  exists pre a suf node,
    doc = pre ++ a :: suf /\ anchored pre a suf /\ In node suf /\
    any_in stop_markers node = false /\
    any_in status_tokens (strip node) = true /\
    8 <= List.length (fragments (strip node)) /\
    r = make_row (fragments (strip node)).
Proof.
  destruct (anchored_or_none doc) as [[H1 H2] | [pre [a [suf [-> H]]]]].
  - rewrite (parse_rows_none _ H1 H2). intros [].
  - rewrite (parse_rows_anchored _ _ _ H). intros Hr.
    destruct (walk_origin _ _ Hr) as [node Hnode].
    now exists pre, a, suf, node.
Qed.

(** ** [replace("%", "")] and the fields of a row *)

Lemma join_nil_cons (p : str) (parts : list str) :
  join [] (p :: parts) = p ++ join [] parts.
Proof. destruct parts; simpl; [now rewrite app_nil_r | reflexivity]. Qed.

Lemma replace_char_go (c : char) (cur s : str) :
  join [] (split_go [c] 0 cur s) =
  rev cur ++ filter (fun x => negb (c =? x)%N) s.
Proof.
  revert cur. induction s as [|x s IH]; intros cur.
  - simpl. now rewrite app_nil_r.
  - cbn [split_go startswith filter List.length Nat.sub].
    rewrite andb_true_r. destruct (c =? x)%N; cbn [negb].
    + now rewrite join_nil_cons, IH.
    + rewrite IH. cbn [rev]. now rewrite <- app_assoc.
Qed.

(** Replacing a one-character string by the empty string deletes every
    occurrence of the character. *)
Lemma replace_char (c : char) (s : str) :
  replace [c] [] s = filter (fun x => negb (c =? x)%N) s.
Proof. unfold replace, split. apply replace_char_go. Qed.

Lemma strip_percent_nil (s : str) :
  strip_percent s = [] <-> Forall (fun x => x = percent_sign) s.
Proof.
  unfold strip_percent. induction s as [|x s IH]; cbn [filter].
  - split; auto.
  - destruct (N.eqb_spec percent_sign x) as [<-|Hx]; cbn [negb].
    + rewrite IH. split; [now constructor | now inversion 1].
    + split; [discriminate | intros H; inversion H; congruence].
Qed.

Lemma fragments_truthy (s p : str) : In p (fragments s) -> p <> [].
Proof.
  unfold fragments. rewrite filter_In. intros [_ H]. now apply truthy_true.
Qed.

Lemma fragment_nth (s : str) (i : nat) :
  i < List.length (fragments s) -> nth i (fragments s) [] <> [].
Proof. intros H. apply (fragments_truthy s). now apply nth_In. Qed.

(** The anchor of a given document: by the first phrase, or by the second
    when no node has the first. *)
Ltac anchored_first :=
  left; split; [repeat constructor | reflexivity].

Ltac anchored_second :=
  right; split; [repeat constructor | split; [repeat constructor | reflexivity]].

Lemma any_in_of_contains (m : str) (ms : list str) (s : str) :
  In m ms -> contains m s = true -> any_in ms s = true.
Proof.
  intros Hin Hc. unfold any_in. apply existsb_exists. now exists m.
Qed.

Lemma make_row_eight (p0 p1 p2 p3 p4 p5 p6 p7 : str) (more : list str) :
  make_row (p0 :: p1 :: p2 :: p3 :: p4 :: p5 :: p6 :: p7 :: more) =
  row_of p0 p1 p2 p3 p4 (strip_percent p5) p6 p7.
Proof.
  unfold make_row, row_of. cbn [nth].
  change (lit "%") with [percent_sign].
  now rewrite (replace_char percent_sign p5).
Qed.

(** ** Properties of [parse_rows] *)

(** C1: a node after the anchor and before any stop-marker node, whose
    trimmed text has a status token and exactly 8 non-empty fragments,
    yields exactly one row, placed between the rows of the nodes before it
    and the rows of the nodes after it; its fields are the 8 fragments in
    the fixed order, the percent field with every percent sign removed.
    In particular the document made of the anchor "Constituency Results",
    the East Kingston node and a node with the copyright sign parses to
    the one row of the scenario. *)
Theorem parse_rows_eight_fragments :
  (forall pre a before node after p0 p1 p2 p3 p4 p5 p6 p7,
      anchored pre a (before ++ node :: after) ->
      Forall nonstop (before ++ [node]) ->
      any_in status_tokens (strip node) = true ->
      fragments (strip node) = [p0; p1; p2; p3; p4; p5; p6; p7] ->
      parse_rows (pre ++ a :: before ++ node :: after) =
      walk before []
      ++ [ row_of p0 p1 p2 p3 p4 (filter (fun c => negb (percent_sign =? c)%N) p5) p6 p7 ]
      ++ walk after [])
  /\
  (forall footer,
      contains copyright_sign footer = true ->
      contains label1 footer = false ->
      parse_rows
        [ lit "Constituency Results";
          lit "East Kingston  Kingston  Jane Doe  PNP  12345  55.2%  Declared  42";
          footer ] =
      [ row_of (lit "East Kingston") (lit "Kingston") (lit "Jane Doe") (lit "PNP")
               (lit "12345") (lit "55.2") (lit "Declared") (lit "42") ]).
Proof.
  assert (General : forall pre a before node after p0 p1 p2 p3 p4 p5 p6 p7,
      anchored pre a (before ++ node :: after) ->
      Forall nonstop (before ++ [node]) ->
      any_in status_tokens (strip node) = true ->
      fragments (strip node) = [p0; p1; p2; p3; p4; p5; p6; p7] ->
      parse_rows (pre ++ a :: before ++ node :: after) =
      walk before [] ++ [ row_of p0 p1 p2 p3 p4 (strip_percent p5) p6 p7 ]
      ++ walk after []).
  { intros pre a before node after p0 p1 p2 p3 p4 p5 p6 p7 Ha Hb Hs Hf.
    rewrite (parse_rows_anchored _ _ _ Ha).
    rewrite (walk_emit before node after Hb Hs) by (rewrite Hf; cbn; lia).
    now rewrite Hf, make_row_eight. }
  split; [exact General|].
  intros footer Hc Hl.
  pose proof (General [] (lit "Constituency Results") []
             (lit "East Kingston  Kingston  Jane Doe  PNP  12345  55.2%  Declared  42")
             [footer]
             (lit "East Kingston") (lit "Kingston") (lit "Jane Doe") (lit "PNP")
             (lit "12345") (lit "55.2%") (lit "Declared") (lit "42")) as G.
  cbn [app] in G. rewrite G.
  - rewrite (walk_stop footer [] []); [reflexivity|].
    apply (any_in_of_contains copyright_sign); [|exact Hc].
    right. right. right. now left.
  - right. split; [|split; [constructor | reflexivity]].
    repeat constructor. exact Hl.
  - repeat constructor.
  - reflexivity.
  - reflexivity.
Qed.

Lemma parse_rows_eight_fragments_witness :
  anchored [lit "Results"] (lit "Detailed Results by Constituency")
    ([lit "Updated 9:00 pm"]
       ++ lit " West Portland  Portland  Ann Lee  JLP  9876  48.10%  Counting  17 "
       :: [lit "Follow Us"]) /\
  parse_rows
    ([lit "Results"] ++ lit "Detailed Results by Constituency"
       :: [lit "Updated 9:00 pm"]
       ++ lit " West Portland  Portland  Ann Lee  JLP  9876  48.10%  Counting  17 "
       :: [lit "Follow Us"]) =
  [ row_of (lit "West Portland") (lit "Portland") (lit "Ann Lee") (lit "JLP")
           (lit "9876") (lit "48.10") (lit "Counting") (lit "17") ].
Proof.
  assert (H : anchored [lit "Results"] (lit "Detailed Results by Constituency")
    ([lit "Updated 9:00 pm"]
       ++ lit " West Portland  Portland  Ann Lee  JLP  9876  48.10%  Counting  17 "
       :: [lit "Follow Us"])).
  { anchored_first. }
  split; [exact H|].
  exact (proj1 parse_rows_eight_fragments _ _ _ _ _
           (lit "West Portland") (lit "Portland") (lit "Ann Lee") (lit "JLP")
           (lit "9876") (lit "48.10%") (lit "Counting") (lit "17")
           H
           ltac:(repeat constructor) eq_refl eq_refl).
Defined.

(** C3: when no text node has either anchor phrase, [parse_rows] returns
    the empty list, and it returns it normally: the call on the markup
    ends with the value [[]], nothing is raised. *)
Theorem no_anchor_no_rows (doc : soup) :
  Forall (fun node =>
            contains (lit "Detailed Results by Constituency") node = false /\
            contains (lit "Constituency Results") node = false) doc ->
  parse_rows doc = [] /\
  forall env html w,
    BeautifulSoup env html = Return doc ->
    parse_rows_html env html w = (w, Return []).
Proof.
  intros H.
  assert (Hrows : parse_rows doc = []).
  { apply parse_rows_none.
    - eapply Forall_impl; [|exact H]. now intros node [H1 _].
    - eapply Forall_impl; [|exact H]. now intros node [_ H2]. }
  split; [exact Hrows|].
  intros env html w Hdoc. unfold parse_rows_html, bind, lift, ret.
  now rewrite Hdoc, Hrows.
Qed.

Lemma no_anchor_no_rows_witness :
  parse_rows
    [ lit "Results"; lit "a  b  c  d  e  1%  Counting  h"; lit "Follow Us" ] = [].
Proof.
  apply no_anchor_no_rows. repeat constructor.
Defined.

(** C4: the anchor is the first node, in document order, with the phrase
    "Detailed Results by Constituency" or, only when no node of the
    document has that phrase, the first node with "Constituency Results";
    the rows are those of the walk over the nodes strictly after it, so
    each row is built from one of those nodes. *)
Theorem anchor_priority_and_rows_after (pre : list str) (a : str) (suf : list str) :
  first_with (lit "Detailed Results by Constituency") pre a \/
  (Forall (fun x => contains (lit "Detailed Results by Constituency") x = false)
          (pre ++ a :: suf) /\
   first_with (lit "Constituency Results") pre a) ->
  find_anchor (pre ++ a :: suf) anchors None = Some (List.length pre) /\
  parse_rows (pre ++ a :: suf) = walk (find_all_next (pre ++ a :: suf) (List.length pre)) [] /\
  find_all_next (pre ++ a :: suf) (List.length pre) = suf /\
  forall r, In r (parse_rows (pre ++ a :: suf)) ->
            exists node, In node suf /\ r = make_row (fragments (strip node)).
Proof.
  intros H. change (anchored pre a suf) in H.
  rewrite find_all_next_at, (parse_rows_anchored _ _ _ H).
  repeat split.
  - now apply find_anchor_anchored.
  - intros r Hr. destruct (walk_origin _ _ Hr) as [node [Hin [_ [_ [_ Heq]]]]].
    now exists node.
Qed.

Lemma anchor_priority_and_rows_after_witness :
  parse_rows priority_doc =
  walk [lit "s  t  u  v  w  2%  Declared  z"] [] /\
  parse_rows priority_doc =
  [ row_of (lit "s") (lit "t") (lit "u") (lit "v") (lit "w") (lit "2")
           (lit "Declared") (lit "z") ].
Proof.
  split; [|reflexivity].
  assert (H : anchored [ lit "Constituency Results"; lit "a  b  c  d  e  1%  Counting  h" ]
                       (lit "Detailed Results by Constituency")
                       [ lit "s  t  u  v  w  2%  Declared  z" ]).
  { anchored_first. }
  exact (proj1 (proj2 (anchor_priority_and_rows_after _ _ _ H))).
Defined.

(** C5: when a node after the anchor contains a stop marker, the result
    is that of the document cut just before that node: neither the node
    nor any node after it contributes a row, whatever the later nodes
    are. *)
Theorem stop_marker_ends_walk (pre : list str) (a : str) (before : list str)
    (node : str) (after : list str) :
  anchored pre a (before ++ node :: after) ->
  any_in stop_markers node = true ->
  parse_rows (pre ++ a :: before ++ node :: after) = parse_rows (pre ++ a :: before).
Proof.
  intros Ha Hn.
  assert (Hb : anchored pre a before).
  { apply (anchored_incl pre a (before ++ node :: after)); [|exact Ha].
    intros x Hx. apply in_or_app. now left. }
  rewrite (parse_rows_anchored _ _ _ Ha), (parse_rows_anchored _ _ _ Hb).
  now apply walk_cut.
Qed.

Lemma stop_marker_ends_walk_witness :
  any_in stop_markers (copyright_sign ++ lit " 2025 Observer") = true /\
  parse_rows
    ([] ++ lit "Constituency Results"
        :: [lit "a  b  c  d  e  1%  Counting  h"]
        ++ (copyright_sign ++ lit " 2025 Observer")
        :: [lit "s  t  u  v  w  2%  Declared  z"]) =
  [ row_of (lit "a") (lit "b") (lit "c") (lit "d") (lit "e") (lit "1")
           (lit "Counting") (lit "h") ].
Proof.
  split; [reflexivity|].
  assert (H : anchored [] (lit "Constituency Results")
                ([lit "a  b  c  d  e  1%  Counting  h"] ++ (copyright_sign ++ lit " 2025 Observer")
                   :: [lit "s  t  u  v  w  2%  Declared  z"])).
  { anchored_second. }
  exact (eq_trans (stop_marker_ends_walk _ _ _ _ _ H eq_refl) eq_refl).
Defined.

(** C6: a node after the anchor whose trimmed text has a status token but
    fewer than 8 non-empty fragments contributes nothing: the result is
    that of the document without the node (and, when the node is itself a
    stop-marker node, without the nodes after it). *)
Theorem short_node_skipped (pre : list str) (a : str) (before : list str)
    (node : str) (after : list str) :
  anchored pre a (before ++ node :: after) ->
  any_in status_tokens (strip node) = true ->
  List.length (fragments (strip node)) < 8 ->
  parse_rows (pre ++ a :: before ++ node :: after) =
  parse_rows (pre ++ a :: before ++ (if any_in stop_markers node then [] else after)).
Proof.
  intros Ha Hs Hlen.
  assert (Hb : anchored pre a (before ++ (if any_in stop_markers node then [] else after))).
  { apply (anchored_incl pre a (before ++ node :: after)); [|exact Ha].
    intros x Hx. apply in_app_or in Hx as [Hx|Hx]; apply in_or_app; [now left|].
    right. right. destruct (any_in stop_markers node); [destruct Hx | exact Hx]. }
  rewrite (parse_rows_anchored _ _ _ Ha), (parse_rows_anchored _ _ _ Hb).
  destruct (any_in stop_markers node) eqn:Hn.
  - rewrite app_nil_r. now apply walk_cut.
  - apply walk_skip; [exact Hn|].
    apply Nat.leb_gt in Hlen. rewrite Hlen. apply andb_false_r.
Qed.

Lemma short_node_skipped_witness :
  List.length (fragments (strip (lit "East Kingston  Jane Doe  PNP  Declared"))) < 8 /\
  parse_rows
    ([] ++ lit "Constituency Results"
        :: [lit "a  b  c  d  e  1%  Counting  h"]
        ++ lit "East Kingston  Jane Doe  PNP  Declared"
        :: [lit "s  t  u  v  w  2%  Declared  z"]) =
  [ row_of (lit "a") (lit "b") (lit "c") (lit "d") (lit "e") (lit "1")
           (lit "Counting") (lit "h");
    row_of (lit "s") (lit "t") (lit "u") (lit "v") (lit "w") (lit "2")
           (lit "Declared") (lit "z") ].
Proof.
  assert (Hlen : List.length (fragments (strip (lit "East Kingston  Jane Doe  PNP  Declared"))) < 8).
  { vm_compute. lia. }
  split; [exact Hlen|].
  assert (H : anchored [] (lit "Constituency Results")
                ([lit "a  b  c  d  e  1%  Counting  h"] ++ (lit "East Kingston  Jane Doe  PNP  Declared")
                   :: [lit "s  t  u  v  w  2%  Declared  z"])).
  { anchored_second. }
  exact (eq_trans (short_node_skipped _ _ _ _ _ H eq_refl Hlen) eq_refl).
Defined.

Lemma make_row_fields (parts : list str) :
  make_row parts =
  row_of (nth 0 parts []) (nth 1 parts []) (nth 2 parts []) (nth 3 parts [])
         (nth 4 parts []) (strip_percent (nth 5 parts []))
         (nth 6 parts []) (nth 7 parts []).
Proof.
  unfold make_row, row_of. change (lit "%") with [percent_sign].
  now rewrite (replace_char percent_sign).
Qed.

(** C9: every row of the result has exactly the eight keys, in the fixed
    order; every value but the percent one is a non-empty string; the
    percent value is the sixth fragment of the node the row comes from
    with every percent sign removed, so it is empty exactly when that
    fragment is made of percent signs only, which does happen. *)
Theorem parse_rows_row_shape :
  (forall doc r,
      In r (parse_rows doc) ->
      keys r = FIELDS /\
      (forall k, In k FIELDS -> k <> lit "percent" -> get r k [] <> []) /\
      exists node,
        In node doc /\ r = make_row (fragments (strip node)) /\
        8 <= List.length (fragments (strip node)) /\
        nth 5 (fragments (strip node)) [] <> [] /\
        get r (lit "percent") [] =
          filter (fun c => negb (percent_sign =? c)%N) (nth 5 (fragments (strip node)) []) /\
        (get r (lit "percent") [] = [] <->
         Forall (fun c => c = percent_sign) (nth 5 (fragments (strip node)) [])))
  /\
  (exists r, parse_rows all_percent_doc = [r] /\ get r (lit "percent") [] = []).
Proof.
  split.
  - intros doc r Hr.
    destruct (parse_rows_origin _ _ Hr)
      as [pre [a [suf [node [-> [_ [Hin [_ [_ [H8 ->]]]]]]]]]].
    set (parts := fragments (strip node)) in *.
    assert (Hnth : forall i, i < 8 -> nth i parts [] <> []).
    { intros i Hi. apply fragment_nth. fold parts. lia. }
    split; [now rewrite make_row_fields|]. split.
    + intros k Hk Hp. rewrite make_row_fields.
      destruct Hk as [<-|[<-|[<-|[<-|[<-|[<-|[<-|[<-|[]]]]]]]]].
      * exact (Hnth 0 ltac:(lia)).
      * exact (Hnth 1 ltac:(lia)).
      * exact (Hnth 2 ltac:(lia)).
      * exact (Hnth 3 ltac:(lia)).
      * exact (Hnth 4 ltac:(lia)).
      * congruence.
      * exact (Hnth 6 ltac:(lia)).
      * exact (Hnth 7 ltac:(lia)).
    + exists node. split; [apply in_or_app; right; now right|].
      split; [reflexivity|]. split; [exact H8|]. split; [apply Hnth; lia|].
      rewrite make_row_fields.
      split; [reflexivity|]. apply strip_percent_nil.
  - eexists. split; reflexivity.
Qed.

Lemma parse_rows_row_shape_witness :
  In scenario_row (parse_rows scenario) /\
  keys scenario_row = FIELDS /\
  (forall k, In k FIELDS -> k <> lit "percent" -> get scenario_row k [] <> []).
Proof.
  assert (H : In scenario_row (parse_rows scenario)) by (left; reflexivity).
  split; [exact H|].
  destruct (proj1 parse_rows_row_shape scenario scenario_row H) as [Hk [Hv _]].
  exact (conj Hk Hv).
Defined.

(** C10: a node before every stop marker whose trimmed text has a status
    token anywhere, and at least 8 fragments, yields the row of its first
    8 fragments taken by position; the status field is the seventh
    fragment whatever it is.  In the document [positional_doc] the token
    stands in the first fragment and the status field is "g", which
    contains no status token. *)
Theorem status_is_seventh_fragment :
  (forall pre a before node after,
      anchored pre a (before ++ node :: after) ->
      Forall nonstop (before ++ [node]) ->
      any_in status_tokens (strip node) = true ->
      8 <= List.length (fragments (strip node)) ->
      exists r,
        parse_rows (pre ++ a :: before ++ node :: after) =
          walk before [] ++ [r] ++ walk after [] /\
        get r (lit "status") [] = nth 6 (fragments (strip node)) [] /\
        r = row_of (nth 0 (fragments (strip node)) [])
                   (nth 1 (fragments (strip node)) [])
                   (nth 2 (fragments (strip node)) [])
                   (nth 3 (fragments (strip node)) [])
                   (nth 4 (fragments (strip node)) [])
                   (filter (fun c => negb (percent_sign =? c)%N)
                           (nth 5 (fragments (strip node)) []))
                   (nth 6 (fragments (strip node)) [])
                   (nth 7 (fragments (strip node)) []))
  /\
  (parse_rows positional_doc =
     [ row_of (lit "Declared") (lit "b") (lit "c") (lit "d") (lit "e") (lit "f")
              (lit "g") (lit "h") ] /\
   any_in status_tokens (lit "g") = false).
Proof.
  split; [|split; reflexivity].
  intros pre a before node after Ha Hb Hs H8.
  exists (make_row (fragments (strip node))).
  rewrite (parse_rows_anchored _ _ _ Ha), (walk_emit before node after Hb Hs H8).
  split; [reflexivity|]. rewrite make_row_fields. split; reflexivity.
Qed.

Lemma status_is_seventh_fragment_witness :
  exists r,
    parse_rows ([] ++ lit "Constituency Results"
                   :: [] ++ lit " Counting done  b  c  d  e  f  soon  h  i " :: []) =
      [r] /\
    get r (lit "status") [] = lit "soon".
Proof.
  assert (H : anchored [] (lit "Constituency Results")
                ([] ++ lit " Counting done  b  c  d  e  f  soon  h  i " :: [])).
  { anchored_second. }
  assert (H8 : 8 <= List.length
                      (fragments (strip (lit " Counting done  b  c  d  e  f  soon  h  i ")))).
  { vm_compute. lia. }
  destruct (proj1 status_is_seventh_fragment _ _ _ _ _ H
              ltac:(repeat constructor) eq_refl H8) as [r [Hp [Hst _]]].
  exists r. split; [exact Hp | exact Hst].
Defined.

(** ** Files *)

Lemma lookup_dict_set (d : dict) (k v : str) :
  lookup (dict_set d k v) k = Some v.
Proof.
  induction d as [|[k' v'] d IH]; simpl.
  - now rewrite eqb_str_refl.
  - destruct (eqb_str k' k) eqn:Hk; simpl; now rewrite Hk.
Qed.

Lemma lookup_dict_set_other (d : dict) (k v k' : str) :
  k' <> k -> lookup (dict_set d k v) k' = lookup d k'.
Proof.
  intros Hne. induction d as [|[k0 v0] d IH]; simpl.
  - destruct (eqb_str k k') eqn:Hk; [|reflexivity].
    apply eqb_str_true in Hk. congruence.
  - destruct (eqb_str k0 k) eqn:Hk; simpl.
    + apply eqb_str_true in Hk. subst k0.
      destruct (eqb_str k k') eqn:Hk'; [|reflexivity].
      apply eqb_str_true in Hk'. congruence.
    + now rewrite IH.
Qed.

Lemma get_of_lookup (d : dict) (k v default : str) :
  lookup d k = Some v -> get d k default = v.
Proof.
  induction d as [|[k' v'] d IH]; simpl; [discriminate|].
  destruct (eqb_str k' k); [congruence | exact IH].
Qed.

Lemma get_missing (d : dict) (k default : str) :
  ~ In k (keys d) -> get d k default = default.
Proof.
  induction d as [|[k' v'] d IH]; simpl; [reflexivity|]. intros H.
  destruct (eqb_str k' k) eqn:Hk.
  - apply eqb_str_true in Hk. tauto.
  - apply IH. tauto.
Qed.

Lemma csv_record_fields (f g : str) (fields : list str) :
  csv_record (f :: g :: fields) = join [delimiter] (map csv_field (f :: g :: fields)).
Proof.
  unfold csv_record. cbn [map join].
  now destruct (csv_field f).
Qed.

Lemma dict_comp_fields (r : dict) :
  dict_comp (fun k => get r k []) FIELDS = map (fun k => (k, get r k [])) FIELDS.
Proof. vm_compute. reflexivity. Qed.

Lemma dict_to_list_fields (r : dict) :
  dict_to_list FIELDS (dict_comp (fun k => get r k []) FIELDS) = Return (row_values r).
Proof. rewrite dict_comp_fields. vm_compute. reflexivity. Qed.

(** The row handed to the writer has the values of the eight fields, and
    it is written as one line. *)
Lemma writerow_row (r : dict) (w : World) :
  writerow results_csv FIELDS (dict_comp (fun k => get r k []) FIELDS) w =
  file_write results_csv (csv_line (row_values r)) w.
Proof.
  unfold writerow, bind, lift. rewrite dict_to_list_fields.
  unfold writer_writerow, csv_line, row_values, FIELDS. cbn [map].
  now rewrite csv_record_fields.
Qed.

Lemma writeheader_fields (w : World) :
  writeheader results_csv FIELDS w = file_write results_csv header_line w.
Proof. reflexivity. Qed.

(** ** The text of [json.dumps] is plain ASCII *)

Section JsonInduction.

Variable P : json -> Prop.
Hypothesis HStr : forall s, P (JStr s).
Hypothesis HArr : forall items, Forall P items -> P (JArr items).
Hypothesis HObj : forall members, Forall (fun kv => P (snd kv)) members -> P (JObj members).

(** Induction over a JSON value and the values inside it. *)
Lemma json_nested_ind (v : json) : P v.
Proof.
  revert v. fix IH 1. intros [s | items | members].
  - apply HStr.
  - apply HArr. revert items. fix IHitems 1. intros [|x items].
    + constructor.
    + constructor; [apply IH | apply IHitems].
  - apply HObj. revert members. fix IHmembers 1. intros [|[k x] members].
    + constructor.
    + constructor; [apply IH | apply IHmembers].
Qed.

End JsonInduction.

Lemma printable_spec (c : char) :
  printable c = true <-> (c = 10 \/ 32 <= c <= 126)%N.
Proof.
  unfold printable.
  rewrite orb_true_iff, andb_true_iff, N.eqb_eq, !N.leb_le. tauto.
Qed.

Lemma hex_digit_printable (n : N) : (n < 16)%N -> printable (hex_digit n) = true.
Proof.
  intros Hn. apply printable_spec. right. unfold hex_digit.
  destruct (n <? 10)%N eqn:H10; [apply N.ltb_lt in H10 | apply N.ltb_ge in H10]; lia.
Qed.

Lemma lit_ascii_only (s : str) : forallb printable s = true -> ascii_only s.
Proof.
  intros H. apply Forall_forall. intros c Hc.
  rewrite forallb_forall in H. now apply H.
Qed.

Lemma u_escape_ascii_only (n : N) : ascii_only (u_escape n).
Proof.
  unfold u_escape. apply Forall_app. split; [now apply lit_ascii_only|].
  repeat constructor; apply hex_digit_printable; now apply N.mod_upper_bound.
Qed.

Lemma escape_char_ascii_only (c : char) : ascii_only (escape_char c).
Proof.
  unfold escape_char.
  repeat match goal with
         | |- ascii_only (if ?b then _ else _) => destruct b eqn:?
         end;
    try (now apply lit_ascii_only);
    try apply u_escape_ascii_only.
  - constructor; [|constructor]. apply printable_spec. right.
    match goal with H : (_ && _)%bool = true |- _ =>
      apply andb_true_iff in H as [H1 H2];
      apply N.leb_le in H1; apply N.leb_le in H2 end. lia.
  - apply Forall_app. split; apply u_escape_ascii_only.
Qed.

Lemma encode_str_ascii_only (s : str) : ascii_only (encode_str s).
Proof.
  unfold encode_str. constructor; [reflexivity|]. apply Forall_app. split.
  - induction s as [|c s IH]; [constructor|]. cbn [flat_map].
    apply Forall_app. split; [apply escape_char_ascii_only | exact IH].
  - now repeat constructor.
Qed.

Lemma newline_indent_ascii_only (level : nat) : ascii_only (newline_indent level).
Proof.
  unfold newline_indent. constructor; [reflexivity|].
  apply Forall_forall. intros c Hc. apply repeat_spec in Hc. now subst c.
Qed.

Lemma join_ascii_only (sep : str) (parts : list str) :
  ascii_only sep -> Forall ascii_only parts -> ascii_only (join sep parts).
Proof.
  intros Hsep Hparts. induction Hparts as [|p parts Hp _ IH]; [constructor|].
  destruct parts as [|q parts]; [exact Hp|].
  change (join sep (p :: q :: parts)) with (p ++ sep ++ join sep (q :: parts)).
  apply Forall_app. split; [exact Hp|]. apply Forall_app. now split.
Qed.

(** The encoder writes nothing but line feeds and printable ASCII
    characters. *)
Lemma encode_ascii_only (v : json) : forall level, ascii_only (encode level v).
Proof.
  induction v as [s | items IH | members IH] using json_nested_ind; intros level.
  - apply encode_str_ascii_only.
  - destruct items as [|x items]; [now apply lit_ascii_only|].
    change (encode level (JArr (x :: items)))
      with (lit "[" ++ newline_indent (S level)
            ++ join (lit "," ++ newline_indent (S level))
                 (map (encode (S level)) (x :: items))
            ++ newline_indent level ++ lit "]").
    repeat (apply Forall_app; split);
      try apply newline_indent_ascii_only; try (now apply lit_ascii_only).
    apply join_ascii_only.
    + apply Forall_app. split; [now apply lit_ascii_only | apply newline_indent_ascii_only].
    + apply Forall_map. eapply Forall_impl; [|exact IH]. intros v Hv. apply Hv.
  - destruct members as [|m members]; [now apply lit_ascii_only|].
    change (encode level (JObj (m :: members)))
      with (lit "{" ++ newline_indent (S level)
            ++ join (lit "," ++ newline_indent (S level))
                 (map (fun kv => match kv with
                                 | (k, v') => encode_str k ++ lit ": " ++ encode (S level) v'
                                 end) (m :: members))
            ++ newline_indent level ++ lit "}").
    repeat (apply Forall_app; split);
      try apply newline_indent_ascii_only; try (now apply lit_ascii_only).
    apply join_ascii_only.
    + apply Forall_app. split; [now apply lit_ascii_only | apply newline_indent_ascii_only].
    + apply Forall_map. eapply Forall_impl; [|exact IH]. intros [k v'] Hv.
      apply Forall_app. split; [apply encode_str_ascii_only|].
      apply Forall_app. split; [now apply lit_ascii_only | apply Hv].
Qed.

(** ** What UTF-8 can encode *)

Lemma utf8_app (a b : str) :
  utf8_encodable (a ++ b) = utf8_encodable a && utf8_encodable b.
Proof. apply forallb_app. Qed.

Lemma printable_not_surrogate (c : char) :
  printable c = true -> negb (surrogate c) = true.
Proof.
  intros H. apply printable_spec in H. unfold surrogate.
  destruct (55296 <=? c)%N eqn:H1; [|reflexivity].
  apply N.leb_le in H1. lia.
Qed.

Lemma ascii_only_utf8 (s : str) : ascii_only s -> utf8_encodable s = true.
Proof.
  intros H. apply forallb_forall. intros c Hc.
  apply printable_not_surrogate. unfold ascii_only in H.
  rewrite Forall_forall in H. now apply H.
Qed.

(** The JSON text can always be written. *)
Lemma json_dumps_utf8 (v : json) : utf8_encodable (json_dumps v) = true.
Proof. apply ascii_only_utf8, encode_ascii_only. Qed.

Lemma double_quotes_utf8 (f : str) :
  utf8_encodable (double_quotes f) = utf8_encodable f.
Proof.
  induction f as [|c f IH]; [reflexivity|].
  unfold double_quotes. cbn [flat_map]. fold (double_quotes f).
  rewrite utf8_app, IH.
  destruct (N.eqb_spec c quote_char) as [->|_]; [reflexivity|].
  unfold utf8_encodable. cbn [forallb]. now rewrite andb_true_r.
Qed.

Lemma csv_field_utf8 (f : str) : utf8_encodable (csv_field f) = utf8_encodable f.
Proof.
  unfold csv_field. destruct (needs_quotes f); [|reflexivity].
  change (quote_char :: double_quotes f ++ [quote_char])
    with ([quote_char] ++ double_quotes f ++ [quote_char]).
  rewrite !utf8_app, double_quotes_utf8. cbn. now rewrite andb_true_r.
Qed.

Lemma join_fields_utf8 (values : list str) :
  utf8_encodable (join [delimiter] (map csv_field values)) =
  forallb utf8_encodable values.
Proof.
  induction values as [|f values IH]; [reflexivity|].
  destruct values as [|g values].
  - cbn [map join forallb]. now rewrite csv_field_utf8, andb_true_r.
  - change (join [delimiter] (map csv_field (f :: g :: values)))
      with (csv_field f ++ [delimiter] ++ join [delimiter] (map csv_field (g :: values))).
    rewrite !utf8_app, IH, csv_field_utf8. reflexivity.
Qed.

(** A line of the CSV file can be written exactly when its values can. *)
Lemma csv_line_utf8 (values : list str) :
  utf8_encodable (csv_line values) = forallb utf8_encodable values.
Proof.
  unfold csv_line. rewrite utf8_app, join_fields_utf8. cbn. apply andb_true_r.
Qed.

Lemma writable_prefix_all (rows : list dict) :
  forallb row_writable rows = true -> writable_prefix rows = rows.
Proof.
  induction rows as [|r rows IH]; [reflexivity|]. cbn [forallb writable_prefix].
  intros H. apply andb_true_iff in H as [Hr H]. now rewrite Hr, IH.
Qed.

Lemma writable_prefix_first_bad (rows : list dict) :
  forallb row_writable rows = false ->
  exists r, In r rows /\ row_writable r = false.
Proof.
  induction rows as [|r rows IH]; [discriminate|]. cbn [forallb].
  destruct (row_writable r) eqn:Hr.
  - intros H. destruct (IH H) as [r' [Hin Hr']]. exists r'. split; [now right | exact Hr'].
  - intros _. exists r. split; [now left | exact Hr].
Qed.

(** ** Writing the files *)

Lemma file_write_appends (path text c : str) (w : World) :
  lookup (files w) path = Some c ->
  utf8_encodable text = true ->
  exists w',
    file_write path text w = (w', Return tt) /\
    lookup (files w') path = Some (c ++ text) /\
    (forall p, p <> path -> lookup (files w') p = lookup (files w) p) /\
    stdout w' = stdout w.
Proof.
  intros Hc Ht. unfold file_write. rewrite Ht. eexists. split; [reflexivity|].
  cbn [files stdout].
  rewrite (get_of_lookup _ _ _ _ Hc), lookup_dict_set.
  repeat split. intros p Hp. now apply lookup_dict_set_other.
Qed.

Lemma file_write_refused (path text : str) (w : World) :
  utf8_encodable text = false ->
  file_write path text w = (w, Raise (utf8_error text)).
Proof. intros Ht. unfold file_write. now rewrite Ht. Qed.

(** [write_text] leaves the text in the file when the text can be
    encoded. *)
Lemma write_text_writes (path content : str) (w : World) :
  utf8_encodable content = true ->
  exists w',
    write_text path content w = (w', Return tt) /\
    lookup (files w') path = Some content /\
    (forall p, p <> path -> lookup (files w') p = lookup (files w) p) /\
    stdout w' = stdout w.
Proof.
  intros Hc. unfold write_text, bind at 1. cbn [open_w].
  set (w1 := mkWorld (dict_set (files w) path []) (stdout w)).
  assert (H1 : lookup (files w1) path = Some []) by apply lookup_dict_set.
  destruct (file_write_appends path content [] w1 H1 Hc) as [w' [Hw [Hl [Ho Hs]]]].
  exists w'. rewrite Hw. split; [reflexivity|]. split; [exact Hl|]. split.
  - intros p Hp. rewrite (Ho p Hp). unfold w1. cbn [files].
    now apply lookup_dict_set_other.
  - exact Hs.
Qed.

Lemma writerow_line (r : dict) (w : World) :
  writerow results_csv FIELDS (dict_comp (fun k => get r k []) FIELDS) w =
  file_write results_csv (csv_line (row_values r)) w.
Proof. apply writerow_row. Qed.

(** The loop over the rows writes the lines of the rows up to the first
    one that cannot be encoded, and raises there. *)
Lemma for_each_writerow (rows : list dict) (w : World) (c : str) :
  lookup (files w) results_csv = Some c ->
  exists w' res,
    for_each rows
      (fun r => writerow results_csv FIELDS (dict_comp (fun k => get r k []) FIELDS)) w
    = (w', res) /\
    lookup (files w') results_csv =
      Some (c ++ List.concat (map (fun r => csv_line (row_values r))
                                  (writable_prefix rows))) /\
    (forall p, p <> results_csv -> lookup (files w') p = lookup (files w) p) /\
    stdout w' = stdout w /\
    (forallb row_writable rows = true -> res = Return tt) /\
    (forallb row_writable rows = false -> exists e, res = Raise e).
Proof.
  revert w c. induction rows as [|r rows IH]; intros w c Hc.
  - exists w, (Return tt). cbn [for_each map List.concat writable_prefix forallb].
    rewrite app_nil_r. repeat split; auto. discriminate.
  - cbn [for_each writable_prefix forallb]. unfold bind at 1.
    rewrite writerow_line. destruct (row_writable r) eqn:Hr.
    + assert (Ht : utf8_encodable (csv_line (row_values r)) = true).
      { now rewrite csv_line_utf8. }
      destruct (file_write_appends results_csv _ c w Hc Ht)
        as [w1 [Hw1 [Hc1 [Ho1 Hs1]]]].
      destruct (IH w1 _ Hc1) as [w2 [res [Hw2 [Hc2 [Ho2 [Hs2 [Hok Hbad]]]]]]].
      exists w2, res. rewrite Hw1, Hw2. split; [reflexivity|].
      cbn [map List.concat]. rewrite Hc2, <- app_assoc.
      repeat split; auto.
      * intros p Hp. now rewrite Ho2, Ho1.
      * congruence.
    + assert (Ht : utf8_encodable (csv_line (row_values r)) = false).
      { now rewrite csv_line_utf8. }
      rewrite (file_write_refused _ _ _ Ht).
      exists w, (Raise (utf8_error (csv_line (row_values r)))).
      cbn [map List.concat]. rewrite app_nil_r.
      repeat split; auto; [discriminate | now eexists].
Qed.

Lemma header_line_utf8 : utf8_encodable header_line = true.
Proof. reflexivity. Qed.

(** What a text is printed as: taken by the encoder of standard output,
    or refused. *)
Lemma print_cases (env : Env) (line : str) (w : World) :
  (stdout_encode env line = Return tt /\
   print env line w = (mkWorld (files w) (stdout w ++ [line]), Return tt)) \/
  (exists e, stdout_encode env line = Raise e /\ print env line w = (w, Raise e)).
Proof.
  unfold print. destruct (stdout_encode env line) as [[]|e]; [now left | right].
  now exists e.
Qed.

(** Both paths of [main] start the same way: the JSON text, the CSV file
    opened and the header written; [k] is what follows. *)
Lemma artifacts_started (text : str) (w : World) :
  utf8_encodable text = true ->
  exists w3,
    (forall (A : Type) (k : io A),
        (write_text results_json text ;;; open_w results_csv ;;;
         writeheader results_csv FIELDS ;;; k) w = k w3) /\
    lookup (files w3) results_json = Some text /\
    lookup (files w3) results_csv = Some header_line /\
    stdout w3 = stdout w.
Proof.
  intros Ht.
  destruct (write_text_writes results_json text w Ht) as [w1 [Hw1 [Hj1 [Ho1 Hs1]]]].
  set (w2 := mkWorld (dict_set (files w1) results_csv []) (stdout w1)).
  assert (H2 : lookup (files w2) results_csv = Some []) by apply lookup_dict_set.
  destruct (file_write_appends results_csv header_line [] w2 H2 header_line_utf8)
    as [w3 [Hw3 [Hc3 [Ho3 Hs3]]]].
  exists w3. split; [|split; [|split]].
  - intros A k. unfold bind at 1. rewrite Hw1. unfold bind at 1. cbn [open_w]. fold w2.
    unfold bind at 1. now rewrite writeheader_fields, Hw3.
  - rewrite Ho3 by discriminate. unfold w2. cbn [files].
    now rewrite lookup_dict_set_other by discriminate.
  - exact Hc3.
  - rewrite Hs3. exact Hs1.
Qed.


(** What [write_artifacts] leaves behind, for any rows and any world:
    the JSON text, the CSV file with the header and the rows up to the
    first one that cannot be encoded, and the line printed when all went
    through. *)
Lemma write_artifacts_files (env : Env) (rows : list dict) (w : World) :
  exists w' res,
    write_artifacts env rows w = (w', res) /\
    lookup (files w') results_csv = Some (csv_text (writable_prefix rows)) /\
    lookup (files w') results_json =
      Some (json_dumps (success_payload (gmtime env) rows)) /\
    (forallb row_writable rows = true ->
     stdout_encode env (saved_line env rows) = Return tt ->
     res = Return tt /\ stdout w' = stdout w ++ [saved_line env rows]) /\
    (forallb row_writable rows = false \/
     (exists e, stdout_encode env (saved_line env rows) = Raise e) ->
     (exists e, res = Raise e) /\ stdout w' = stdout w).
Proof.
  destruct (artifacts_started (json_dumps (success_payload (gmtime env) rows)) w
              (json_dumps_utf8 _)) as [w3 [Hk [Hj3 [Hc3 Hs3]]]].
  destruct (for_each_writerow rows w3 _ Hc3)
    as [w4 [res4 [Hw4 [Hc4 [Ho4 [Hs4 [Hok Hbad]]]]]]].
  assert (Hj4 : lookup (files w4) results_json =
                Some (json_dumps (success_payload (gmtime env) rows))).
  { now rewrite Ho4 by discriminate. }
  assert (Hrun : write_artifacts env rows w =
                 match res4 with
                 | Return _ => print env (saved_line env rows) w4
                 | Raise e => (w4, Raise e)
                 end).
  { unfold write_artifacts. fold (success_payload (gmtime env) rows).
    rewrite Hk. unfold bind at 1. rewrite Hw4. now destruct res4. }
  destruct (forallb row_writable rows) eqn:Hall.
  - rewrite (Hok eq_refl) in Hrun.
    destruct (print_cases env (saved_line env rows) w4) as [[He Hp] | [e [He Hp]]];
      rewrite Hp in Hrun; eexists; eexists; (split; [exact Hrun|]);
      cbn [files stdout]; (split; [exact Hc4|]); (split; [exact Hj4|]); split.
    + intros _ _. split; [reflexivity | now rewrite Hs4, Hs3].
    + intros [H | [e H]]; congruence.
    + intros _ H. congruence.
    + intros _. split; [now exists e | now rewrite Hs4, Hs3].
  - destruct (Hbad eq_refl) as [e He]. rewrite He in Hrun.
    exists w4, (Raise e). split; [exact Hrun|]. split; [exact Hc4|].
    split; [exact Hj4|]. split; [discriminate|].
    intros _. split; [now exists e | now rewrite Hs4, Hs3].
Qed.

(** ** Properties of the artifacts *)

(** C7: whatever the rows, the CSV file that [write_artifacts] leaves is
    the line of the eight field names in the fixed order followed by one
    line of eight values per row written, a key missing from a row giving
    the empty value, which is written as nothing; the rows written are all
    the rows when the values can be encoded (the write of a row that
    cannot be raises); for no rows the CSV file is the header line alone
    and the payload of the JSON file has the empty list as its rows. *)
Theorem csv_columns_fixed (env : Env) (rows : list dict) (w : World) :
  exists w' res,
    write_artifacts env rows w = (w', res) /\
    lookup (files w') results_csv =
      Some ((join [delimiter] FIELDS ++ lineterminator)
            ++ List.concat
                 (map (fun r =>
                         join [delimiter] (map (fun k => csv_field (get r k [])) FIELDS)
                         ++ lineterminator) (writable_prefix rows))) /\
    join [delimiter] FIELDS =
      lit "constituency,parish,candidate,party,votes,percent,status,boxes" /\
    (forall r k, ~ In k (keys r) -> get r k [] = [] /\ csv_field (get r k []) = []) /\
    lookup (files w') results_json =
      Some (json_dumps
              (JObj [ (lit "source", JStr URL); (lit "fetched_at", JStr (gmtime env));
                      (lit "rows", json_of_rows rows) ])) /\
    (forallb row_writable rows = true ->
     writable_prefix rows = rows /\
     (stdout_encode env (saved_line env rows) = Return tt -> res = Return tt)) /\
    (forallb row_writable rows = false -> exists e, res = Raise e) /\
    (rows = [] ->
     lookup (files w') results_csv =
       Some (lit "constituency,parish,candidate,party,votes,percent,status,boxes"
             ++ lineterminator) /\
     lookup (files w') results_json =
       Some (json_dumps
               (JObj [ (lit "source", JStr URL); (lit "fetched_at", JStr (gmtime env));
                       (lit "rows", JArr []) ]))).
Proof.
  destruct (write_artifacts_files env rows w)
    as [w' [res [Hw [Hcsv [Hjson [Hok Hbad]]]]]].
  exists w', res. split; [exact Hw|].
  assert (Htext : forall rs, csv_text rs =
            (join [delimiter] FIELDS ++ lineterminator)
            ++ List.concat
                 (map (fun r =>
                         join [delimiter] (map (fun k => csv_field (get r k [])) FIELDS)
                         ++ lineterminator) rs)).
  { intros rs. unfold csv_text.
    change header_line with (join [delimiter] FIELDS ++ lineterminator).
    apply (f_equal (app _)), (f_equal (@List.concat _)), map_ext. intros r.
    unfold csv_line, row_values. now rewrite map_map. }
  split; [now rewrite Hcsv, Htext|]. split; [reflexivity|]. split.
  { intros r k Hk. now rewrite (get_missing r k [] Hk). }
  split; [exact Hjson|]. split.
  { intros Hall. split; [now apply writable_prefix_all|].
    intros Hout. now destruct (Hok Hall Hout). }
  split.
  { intros Hall. now destruct (Hbad (or_introl Hall)). }
  intros ->. split; [exact Hcsv | exact Hjson].
Qed.

Lemma csv_columns_fixed_witness :
  exists w',
    write_artifacts timeout_env [] empty_world = (w', Return tt) /\
    lookup (files w') results_csv =
      Some (lit "constituency,parish,candidate,party,votes,percent,status,boxes"
            ++ lineterminator) /\
    get [(lit "parish", lit "Kingston")] (lit "votes") [] = [].
Proof.
  destruct (csv_columns_fixed timeout_env [] empty_world)
    as [w' [res [Hw [_ [_ [Hmiss [_ [Hall [_ Hempty]]]]]]]]].
  exists w'. split.
  - rewrite Hw. now rewrite (proj2 (Hall eq_refl) eq_refl).
  - split; [exact (proj1 (Hempty eq_refl))|].
    refine (proj1 (Hmiss [(lit "parish", lit "Kingston")] (lit "votes") _)).
    intros [H | []]. discriminate H.
Defined.

(** ** The failure path of [main] *)





Lemma scrape_raises_body (env : Env) (w : World) (e : exn) :
  scrape_raises env w e ->
  bind (fetch_html env URL)
       (fun html => bind (parse_rows_html env html)
                         (fun rows => ret (@inl (list dict) nat rows))) w
  = (w, Raise e).
Proof.
  unfold scrape_raises, fetch_html, parse_rows_html, bind, lift, ret.
  destruct (requests_get env URL) as [r|e0]; cbn [snd].
  - destruct (raise_for_status env r) as [[]|e1]; cbn [snd].
    + intros [H | [html [H1 H2]]]; [discriminate|].
      injection H1 as <-.
      destruct (BeautifulSoup env (text r)); cbn [snd] in H2; congruence.
    + intros [H | [html [H1 _]]]; congruence.
  - intros [H | [html [H1 _]]]; congruence.
Qed.

(** What the handler of [main] leaves behind. *)
Lemma main_failure (env : Env) (w : World) (e : exn) :
  scrape_raises env w e ->
  exists w' res,
    main env w = (w', res) /\
    lookup (files w') results_json =
      Some (json_dumps (failure_payload (gmtime env) (str_of_exn e))) /\
    lookup (files w') results_csv = Some header_line /\
    (stdout_encode env (error_line e) = Return tt ->
     res = Return 0 /\ stdout w' = stdout w ++ [error_line e]) /\
    (forall e', stdout_encode env (error_line e) = Raise e' ->
                res = Raise e' /\ stdout w' = stdout w).
Proof.
  intros H. apply scrape_raises_body in H.
  destruct (artifacts_started (json_dumps (failure_payload (gmtime env) (str_of_exn e))) w
              (json_dumps_utf8 _)) as [w3 [Hk [Hj3 [Hc3 Hs3]]]].
  assert (Hrun : main env w =
                 match print env (error_line e) w3 with
                 | (w', Return _) => (w', Return 0)
                 | (w', Raise e') => (w', Raise e')
                 end).
  { unfold main. unfold bind at 1. unfold try_except. rewrite H.
    rewrite Hk. unfold bind at 1. fold (error_line e).
    destruct (print env (error_line e) w3) as [w' [[]|e']]; reflexivity. }
  destruct (print_cases env (error_line e) w3) as [[He Hp] | [e0 [He Hp]]];
    rewrite Hp in Hrun; eexists; eexists; (split; [exact Hrun|]);
    cbn [files stdout]; (split; [exact Hj3|]); (split; [exact Hc3|]); split.
  - intros _. split; [reflexivity | now rewrite Hs3].
  - intros e' He'. congruence.
  - intros He'. congruence.
  - intros e' He'. split; [congruence | exact Hs3].
Qed.




(** ** Reading back what the writer wrote *)

Lemma consume_line (r : Reader) (line : str) (rest : list input) :
  consume r (map Char line ++ EOL :: rest) =
  match parse_line r line with
  | Raise e => Raise e
  | Return r' =>
      if is_start_record (state r')
      then except_map (cons (fields r')) (consume parse_reset rest)
      else consume r' rest
  end.
Proof.
  revert r. induction line as [|c line IH]; intros r; cbn [map app consume parse_line].
  - reflexivity.
  - destruct (parse_process_char r (Char c)); [apply IH | reflexivity].
Qed.

Lemma reader_rows_consume (r : Reader) (lines : list str) :
  reader_rows r lines = consume r (feed lines).
Proof.
  revert r. induction lines as [|line lines IH]; intros r; [reflexivity|].
  unfold feed. cbn [flat_map]. fold (feed lines).
  rewrite <- app_assoc. cbn [app]. rewrite consume_line. cbn [reader_rows].
  destruct (parse_line r line) as [r'|e]; [|reflexivity].
  now rewrite !IH.
Qed.

Lemma feed_readlines (s cur : str) (cr : bool) :
  (cr = true -> cur <> []) ->
  feed (readlines_go cur cr s) = map Char (rev cur) ++ inject (linestate_of cur cr) s.
Proof.
  revert cur cr. induction s as [|c s IH]; intros cur cr Hcr.
  - cbn [readlines_go inject]. destruct cur as [|x cur].
    + destruct cr; [now destruct Hcr|]. reflexivity.
    + unfold feed. cbn [flat_map]. rewrite app_nil_r.
      now destruct cr.
  - cbn [readlines_go inject]. destruct (c =? LF)%N.
    + unfold feed. cbn [flat_map]. fold (feed (readlines_go [] false s)).
      rewrite IH by discriminate. cbn [rev map app linestate_of].
      now rewrite map_app, <- !app_assoc.
    + destruct cr.
      * unfold feed. cbn [flat_map]. fold (feed (readlines_go [c] (c =? CR)%N s)).
        rewrite IH by discriminate. cbn [linestate_of rev map app].
        rewrite <- app_assoc. cbn [app]. now destruct (c =? CR)%N.
      * rewrite IH by discriminate. cbn [rev]. rewrite map_app, <- app_assoc.
        cbn [map app linestate_of].
        destruct cur; now destruct (c =? CR)%N.
Qed.

(** Reading a file is running the machine over its characters and line
    ends. *)
Lemma csv_reader_consume (content : str) :
  csv_reader content = consume parse_reset (inject Fresh content).
Proof.
  unfold csv_reader, readlines.
  now rewrite reader_rows_consume, feed_readlines.
Qed.

Lemma special_false (c : char) :
  special c = false ->
  (c =? delimiter)%N = false /\ (c =? quote_char)%N = false /\
  (c =? CR)%N = false /\ (c =? LF)%N = false.
Proof.
  unfold special. cbn [existsb lineterminator].
  fold CR LF. rewrite orb_false_r, !orb_false_iff. tauto.
Qed.

Lemma quoted_step_lf (ls : linestate) (buf : str) (fs : list str) (s : str) :
  consume (mkReader IN_QUOTED_FIELD buf fs) (inject ls (LF :: s)) =
  consume (mkReader IN_QUOTED_FIELD (buf ++ [LF]) fs) (inject Fresh s).
Proof. reflexivity. Qed.

Lemma quoted_step_plain (c : char) (ls : linestate) (buf : str) (fs : list str) (s : str) :
  (c =? LF)%N = false -> (c =? quote_char)%N = false ->
  consume (mkReader IN_QUOTED_FIELD buf fs) (inject ls (c :: s)) =
  consume (mkReader IN_QUOTED_FIELD (buf ++ [c]) fs)
          (inject (if (c =? CR)%N then AfterCR else Mid) s).
Proof.
  intros Hlf Hq. cbn [inject]. rewrite Hlf.
  destruct ls; cbn [app consume parse_process_char state is_start_record];
    now rewrite Hq.
Qed.

Lemma quoted_step_quote (ls : linestate) (buf : str) (fs : list str) (s : str) :
  consume (mkReader IN_QUOTED_FIELD buf fs) (inject ls (quote_char :: s)) =
  consume (mkReader QUOTE_IN_QUOTED_FIELD buf fs) (inject Mid s).
Proof. now destruct ls. Qed.

Lemma quote_quote_step (buf : str) (fs : list str) (s : str) :
  consume (mkReader QUOTE_IN_QUOTED_FIELD buf fs) (inject Mid (quote_char :: s)) =
  consume (mkReader IN_QUOTED_FIELD (buf ++ [quote_char]) fs) (inject Mid s).
Proof. reflexivity. Qed.

(** Inside the quotes, the machine collects the field whatever line ends
    fall in it, up to and including the closing quote. *)
Lemma quoted_body (body : str) (ls : linestate) (buf : str) (fs : list str) (t : str) :
  consume (mkReader IN_QUOTED_FIELD buf fs)
          (inject ls (double_quotes body ++ quote_char :: t)) =
  consume (mkReader QUOTE_IN_QUOTED_FIELD (buf ++ body) fs) (inject Mid t).
Proof.
  revert ls buf. induction body as [|c body IH]; intros ls buf.
  - cbn [double_quotes flat_map app]. rewrite app_nil_r. apply quoted_step_quote.
  - unfold double_quotes. cbn [flat_map]. fold (double_quotes body).
    replace (buf ++ c :: body) with ((buf ++ [c]) ++ body)
      by now rewrite <- app_assoc.
    destruct (c =? quote_char)%N eqn:Hq.
    + apply N.eqb_eq in Hq. subst c. cbn [app].
      now rewrite quoted_step_quote, quote_quote_step, IH.
    + cbn [app]. destruct (c =? LF)%N eqn:Hlf.
      * apply N.eqb_eq in Hlf. subst c. now rewrite quoted_step_lf, IH.
      * now rewrite (quoted_step_plain _ _ _ _ _ Hlf Hq), IH.
Qed.

Lemma unquoted_body (f : str) (ls : linestate) (buf : str) (fs : list str) (t : str) :
  needs_quotes f = false -> ls <> AfterCR ->
  consume (mkReader IN_FIELD buf fs) (inject ls (f ++ t)) =
  consume (mkReader IN_FIELD (buf ++ f) fs)
          (inject (match f with [] => ls | _ :: _ => Mid end) t).
Proof.
  revert ls buf. induction f as [|c f IH]; intros ls buf Hf Hls.
  - cbn [app]. now rewrite app_nil_r.
  - cbn [needs_quotes existsb] in Hf. apply orb_false_iff in Hf as [Hc Hf].
    destruct (special_false _ Hc) as [Hd [Hq [Hcr Hlf]]].
    replace (buf ++ c :: f) with ((buf ++ [c]) ++ f) by now rewrite <- app_assoc.
    cbn [app inject]. rewrite Hlf, Hcr.
    assert (Hstep :
      consume (mkReader IN_FIELD buf fs)
              (match ls with AfterCR => [EOL] | _ => [] end
               ++ Char c :: inject Mid (f ++ t)) =
      consume (mkReader IN_FIELD (buf ++ [c]) fs) (inject Mid (f ++ t))).
    { destruct ls; [| |congruence];
        cbn [app consume parse_process_char state is_newline];
        now rewrite Hlf, Hcr, Hd. }
    rewrite Hstep, (IH Mid) by (auto; discriminate).
    now destruct f.
Qed.

Lemma field_opens_quoted (st : ParserState) (ls : linestate) (fs : list str) (s : str) :
  expecting st -> ls <> AfterCR ->
  consume (mkReader st [] fs) (inject ls (quote_char :: s)) =
  consume (mkReader IN_QUOTED_FIELD [] fs) (inject Mid s).
Proof.
  intros [-> | ->] Hls; destruct ls; try congruence; reflexivity.
Qed.

Lemma field_opens_plain (st : ParserState) (ls : linestate) (fs : list str)
    (c : char) (s : str) :
  expecting st -> ls <> AfterCR -> special c = false ->
  consume (mkReader st [] fs) (inject ls (c :: s)) =
  consume (mkReader IN_FIELD [c] fs) (inject Mid s).
Proof.
  intros Hst Hls Hc. destruct (special_false _ Hc) as [Hd [Hq [Hcr Hlf]]].
  cbn [inject]. rewrite Hlf, Hcr.
  destruct Hst as [-> | ->]; destruct ls; try congruence;
    cbn [app consume parse_process_char start_field state is_newline];
    now rewrite ?Hlf, ?Hcr, ?Hq, ?Hd.
Qed.

Lemma field_then_delimiter (st : ParserState) (ls : linestate) (fs : list str)
    (f t : str) :
  expecting st -> ls <> AfterCR ->
  consume (mkReader st [] fs) (inject ls (csv_field f ++ delimiter :: t)) =
  consume (mkReader START_FIELD [] (fs ++ [f])) (inject Mid t).
Proof.
  intros Hst Hls. unfold csv_field. destruct (needs_quotes f) eqn:Hf.
  - cbn [app]. rewrite (field_opens_quoted _ _ _ _ Hst Hls).
    rewrite <- app_assoc. cbn [app]. now rewrite quoted_body.
  - destruct f as [|c f].
    + destruct Hst as [-> | ->]; destruct ls; try congruence; reflexivity.
    + cbn [needs_quotes existsb] in Hf. apply orb_false_iff in Hf as [Hc Hf].
      cbn [app]. rewrite (field_opens_plain _ _ _ _ _ Hst Hls Hc).
      rewrite (unquoted_body f Mid [c] fs _ Hf) by discriminate.
      now destruct f.
Qed.

Lemma field_then_crlf (st : ParserState) (ls : linestate) (fs : list str)
    (f t : str) :
  st = START_FIELD \/ (st = START_RECORD /\ csv_field f <> []) ->
  ls <> AfterCR ->
  consume (mkReader st [] fs) (inject ls (csv_field f ++ CR :: LF :: t)) =
  except_map (cons (fs ++ [f])) (consume parse_reset (inject Fresh t)).
Proof.
  intros Hst Hls.
  assert (Hex : expecting st) by (destruct Hst as [-> | [-> _]]; [now right | now left]).
  revert Hst. unfold csv_field. destruct (needs_quotes f) eqn:Hf; intros Hst.
  - cbn [app]. rewrite (field_opens_quoted _ _ _ _ Hex Hls).
    rewrite <- app_assoc. cbn [app]. now rewrite quoted_body.
  - destruct f as [|c f].
    + destruct Hst as [-> | [_ Hne]]; [|congruence].
      destruct ls; try congruence; reflexivity.
    + cbn [needs_quotes existsb] in Hf. apply orb_false_iff in Hf as [Hc Hf].
      cbn [app]. rewrite (field_opens_plain _ _ _ _ _ Hex Hls Hc).
      rewrite (unquoted_body f Mid [c] fs _ Hf) by discriminate.
      now destruct f.
Qed.

Lemma csv_field_nil (f : str) : csv_field f = [] -> f = [].
Proof.
  unfold csv_field. destruct (needs_quotes f); [discriminate | auto].
Qed.

Lemma record_from_field (fields : list str) (fs : list str) (ls : linestate) (t : str) :
  fields <> [] -> ls <> AfterCR ->
  consume (mkReader START_FIELD [] fs)
          (inject ls (join [delimiter] (map csv_field fields) ++ CR :: LF :: t)) =
  except_map (cons (fs ++ fields)) (consume parse_reset (inject Fresh t)).
Proof.
  revert fs ls. induction fields as [|f fields IH]; intros fs ls Hne Hls;
    [congruence|].
  destruct fields as [|g fields].
  - cbn [map join]. apply field_then_crlf; auto.
  - change (join [delimiter] (map csv_field (f :: g :: fields)))
      with (csv_field f ++ [delimiter] ++ join [delimiter] (map csv_field (g :: fields))).
    rewrite <- !app_assoc. cbn [app].
    rewrite field_then_delimiter by (auto; now right).
    rewrite IH by discriminate. now rewrite <- app_assoc.
Qed.

(** One record, as the writer wrote it, gives back its fields, and leaves
    the machine at the start of the next record. *)
Lemma record_read (fields : list str) (t : str) :
  consume parse_reset (inject Fresh (csv_record fields ++ CR :: LF :: t)) =
  except_map (cons fields) (consume parse_reset (inject Fresh t)).
Proof.
  destruct fields as [|f [|g fields]].
  - reflexivity.
  - unfold csv_record. cbn [map join]. destruct (csv_field f) as [|c cs] eqn:Hf.
    + apply csv_field_nil in Hf. subst f. reflexivity.
    + rewrite <- Hf. unfold parse_reset.
      rewrite field_then_crlf; [reflexivity | | discriminate].
      right. split; [reflexivity|]. rewrite Hf. discriminate.
  - rewrite csv_record_fields.
    change (join [delimiter] (map csv_field (f :: g :: fields)))
      with (csv_field f ++ [delimiter] ++ join [delimiter] (map csv_field (g :: fields))).
    rewrite <- !app_assoc. cbn [app]. unfold parse_reset.
    rewrite field_then_delimiter by (try discriminate; now left).
    now rewrite record_from_field by discriminate.
Qed.

Lemma records_read (rows : list (list str)) :
  csv_reader (List.concat (map (fun fields => csv_record fields ++ lineterminator) rows)) =
  Return rows.
Proof.
  rewrite csv_reader_consume. induction rows as [|fields rows IH]; [reflexivity|].
  cbn [map List.concat]. rewrite <- app_assoc.
  change (lineterminator ++ ?x) with (CR :: LF :: x).
  now rewrite record_read, IH.
Qed.

Lemma csv_text_records (rows : list dict) :
  csv_text rows =
  List.concat (map (fun fields => csv_record fields ++ lineterminator)
                   (FIELDS :: map row_values rows)).
Proof.
  unfold csv_text. cbn [map List.concat]. f_equal.
  induction rows as [|r rows IH]; [reflexivity|].
  cbn [map List.concat]. rewrite IH. f_equal.
  unfold csv_line, row_values, FIELDS. cbn [map].
  now rewrite csv_record_fields.
Qed.

(** ** The round trip *)

(** C8, as the code has it: what [write_artifacts] leaves in
    [results.csv], read back, is the header followed by one record per row
    written, in the order of the rows, each made of the row's values for
    the eight fields, the empty string standing for an absent key.  When
    the values of all the rows can be encoded in UTF-8 the rows written
    are all the rows, so N rows read back as N records; otherwise the
    records are those of the rows before the first one that cannot be
    encoded. *)
Theorem csv_round_trip (env : Env) (rows : list dict) (w : World) :
  exists content,
    lookup (files (fst (write_artifacts env rows w))) results_csv = Some content /\
    csv_reader content =
      Return (FIELDS :: map (fun r => map (fun k => get r k []) FIELDS)
                            (writable_prefix rows)) /\
    (forallb row_writable rows = true ->
     csv_reader content =
       Return (FIELDS :: map (fun r => map (fun k => get r k []) FIELDS) rows) /\
     List.length (map (fun r => map (fun k => get r k []) FIELDS) rows) =
       List.length rows).
Proof.
  destruct (write_artifacts_files env rows w) as [w' [res [Hw [Hcsv _]]]].
  exists (csv_text (writable_prefix rows)). rewrite Hw. cbn [fst].
  split; [exact Hcsv|].
  assert (Hread : csv_reader (csv_text (writable_prefix rows)) =
                  Return (FIELDS :: map row_values (writable_prefix rows))).
  { rewrite csv_text_records. apply records_read. }
  split; [exact Hread|].
  intros Hall. rewrite (writable_prefix_all rows Hall) in *.
  split; [exact Hread | apply length_map].
Qed.

Lemma csv_round_trip_witness :
  exists content,
    lookup (files (fst (write_artifacts ok_env [scenario_row] empty_world))) results_csv =
      Some content /\
    csv_reader content = Return [ FIELDS; map snd scenario_row ].
Proof.
  destruct (csv_round_trip ok_env [scenario_row] empty_world)
    as [content [Hc [_ Hall]]].
  exists content. split; [exact Hc|]. exact (proj1 (Hall eq_refl)).
Defined.

(** A snapshot of one row whose constituency holds a lone surrogate: the
    write of the row raises, the file is left with the header alone, and
    it reads back as no data row. *)
Lemma csv_round_trip_needs_encodable :
  (exists e, snd (write_artifacts ok_env [surrogate_row] empty_world) = Raise e) /\
  lookup (files (fst (write_artifacts ok_env [surrogate_row] empty_world))) results_csv =
    Some header_line /\
  csv_reader header_line = Return [ FIELDS ].
Proof.
  split; [eexists; reflexivity|]. split; reflexivity.
Qed.

(** * Further properties of the script *)

(** ** [parse_rows]: the loop as a pipeline *)

Lemma walk_pipeline (nodes : list str) (rows : list dict) :
  walk nodes rows = rows ++ map row_of_node (filter qualifies (before_stop nodes)).
Proof.
  revert rows. induction nodes as [|node nodes IH]; intros rows.
  - cbn [walk before_stop filter map]. now rewrite app_nil_r.
  - cbn [before_stop]. destruct (any_in stop_markers node) eqn:Hn.
    + rewrite (walk_stop _ _ _ Hn). cbn [filter map]. now rewrite app_nil_r.
    + rewrite (walk_cons _ _ _ Hn), IH. cbn [filter]. fold (qualifies node).
      destruct (qualifies node); cbn [map]; [|reflexivity].
      now rewrite <- app_assoc.
Qed.

Lemma before_stop_length (nodes : list str) :
  List.length (before_stop nodes) <= List.length nodes.
Proof.
  induction nodes as [|node nodes IH]; cbn [before_stop]; [lia|].
  destruct (any_in stop_markers node); cbn [List.length]; lia.
Qed.

(** X1: with the anchor found, the result is the rows of the qualifying
    nodes among the nodes that stand after the anchor and before the first
    stop-marker node, one row per such node, in document order; so there
    are at most as many rows as nodes after the anchor. *)
Theorem parse_rows_pipeline (pre : list str) (a : str) (suf : list str) :
  anchored pre a suf ->
  parse_rows (pre ++ a :: suf) = map row_of_node (filter qualifies (before_stop suf)) /\
  List.length (parse_rows (pre ++ a :: suf)) <= List.length suf.
Proof.
  intros H. rewrite (parse_rows_anchored _ _ _ H), walk_pipeline. cbn [app].
  split; [reflexivity|]. rewrite length_map.
  pose proof (filter_length_le qualifies (before_stop suf)).
  pose proof (before_stop_length suf). lia.
Qed.

Lemma parse_rows_pipeline_witness :
  parse_rows priority_doc =
  map row_of_node
      (filter qualifies (before_stop [lit "s  t  u  v  w  2%  Declared  z"])).
Proof.
  assert (H : anchored [ lit "Constituency Results"; lit "a  b  c  d  e  1%  Counting  h" ]
                       (lit "Detailed Results by Constituency")
                       [ lit "s  t  u  v  w  2%  Declared  z" ]).
  { anchored_first. }
  exact (proj1 (parse_rows_pipeline _ _ _ H)).
Defined.

(** X2: a node after the anchor that has neither a stop marker nor a
    status token contributes nothing and stops nothing: the result is
    that of the document without it.  A node of white space only is such
    a node. *)
Theorem tokenless_node_skipped (pre : list str) (a : str) (before : list str)
    (node : str) (after : list str) :
  anchored pre a (before ++ node :: after) ->
  (any_in stop_markers node = false /\ any_in status_tokens (strip node) = false)
  \/ strip node = [] ->
  parse_rows (pre ++ a :: before ++ node :: after) =
  parse_rows (pre ++ a :: before ++ after).
Proof.
  intros Ha Hnode.
  assert (Hb : anchored pre a (before ++ after)).
  { apply (anchored_incl pre a (before ++ node :: after)); [|exact Ha].
    intros x Hx. apply in_app_or in Hx as [Hx|Hx]; apply in_or_app; [now left|].
    right. now right. }
  rewrite (parse_rows_anchored _ _ _ Ha), (parse_rows_anchored _ _ _ Hb).
  assert (Hns : any_in stop_markers node = false /\
                any_in status_tokens (strip node) = false).
  { destruct Hnode as [H | Hempty]; [exact H|].
    rewrite <- stop_markers_strip, Hempty. split; reflexivity. }
  destruct Hns as [Hn Hs]. apply walk_skip; [exact Hn|]. now rewrite Hs.
Qed.

Lemma tokenless_node_skipped_witness :
  parse_rows
    ([] ++ lit "Constituency Results"
        :: [lit "a  b  c  d  e  1%  Counting  h"]
        ++ lit "Updated  at  9  pm  by  the  news  desk  tonight"
        :: [lit "s  t  u  v  w  2%  Declared  z"]) =
  [ row_of (lit "a") (lit "b") (lit "c") (lit "d") (lit "e") (lit "1")
           (lit "Counting") (lit "h");
    row_of (lit "s") (lit "t") (lit "u") (lit "v") (lit "w") (lit "2")
           (lit "Declared") (lit "z") ].
Proof.
  assert (H : anchored [] (lit "Constituency Results")
                ([lit "a  b  c  d  e  1%  Counting  h"]
                   ++ lit "Updated  at  9  pm  by  the  news  desk  tonight"
                   :: [lit "s  t  u  v  w  2%  Declared  z"])).
  { anchored_second. }
  exact (eq_trans (tokenless_node_skipped _ _ _ _ _ H (or_introl (conj eq_refl eq_refl)))
                  eq_refl).
Defined.

(** ** [parse_rows]: white space around the text of a node *)

Lemma label_strip (label x : str) :
  label = label1 \/ label = label2 ->
  contains label (strip x) = contains label x.
Proof. intros [-> | ->]; now apply contains_strip. Qed.

Lemma no_label_strip (label : str) (xs ys : list str) :
  label = label1 \/ label = label2 ->
  map strip xs = map strip ys ->
  Forall (fun x => contains label x = false) xs ->
  Forall (fun x => contains label x = false) ys.
Proof.
  intros Hl Hmap H.
  assert (Hs : forall zs, Forall (fun x => contains label x = false) zs <->
                          Forall (fun x => contains label x = false) (map strip zs)).
  { intros zs. rewrite Forall_map. split; apply Forall_impl; intros x Hx;
      [now rewrite label_strip | now rewrite label_strip in Hx]. }
  apply (proj2 (Hs ys)). rewrite <- Hmap. exact (proj1 (Hs xs) H).
Qed.

Lemma anchored_strip (pre pre' : list str) (a a' : str) (suf suf' : list str) :
  map strip pre = map strip pre' -> strip a = strip a' ->
  map strip suf = map strip suf' ->
  anchored pre a suf -> anchored pre' a' suf'.
Proof.
  intros Hp Ha Hs.
  assert (Hfirst : forall label, label = label1 \/ label = label2 ->
                     first_with label pre a -> first_with label pre' a').
  { intros label Hl [Hpre Hc]. split.
    - now apply (no_label_strip label pre pre').
    - now rewrite <- (label_strip label a') , <- Ha, label_strip. }
  intros [H | [Hnone H]].
  - left. apply Hfirst; auto.
  - right. split; [|apply Hfirst; auto].
    apply (no_label_strip label1 (pre ++ a :: suf)); [now left | | exact Hnone].
    rewrite !map_app. cbn [map]. now rewrite Hp, Ha, Hs.
Qed.

Lemma walk_strip (nodes nodes' : list str) (rows : list dict) :
  map strip nodes = map strip nodes' -> walk nodes rows = walk nodes' rows.
Proof.
  revert nodes' rows. induction nodes as [|node nodes IH];
    intros [|node' nodes'] rows H; try discriminate; [reflexivity|].
  cbn [map] in H. injection H as Hn H. cbn [walk]. rewrite <- Hn.
  destruct (negb (truthy (strip node))); [now apply IH|].
  destruct (any_in stop_markers (strip node)); [reflexivity|].
  destruct (any_in status_tokens (strip node)); [|now apply IH].
  destruct (8 <=? _); now apply IH.
Qed.

(** X3: the white space at the two ends of the text of a node never
    matters: two documents whose nodes have the same trimmed text, node by
    node, give the same rows. *)
Theorem parse_rows_ignores_outer_space (doc doc' : soup) :
  map strip doc = map strip doc' -> parse_rows doc = parse_rows doc'.
Proof.
  intros H. destruct (anchored_or_none doc) as [[H1 H2] | [pre [a [suf [-> Ha]]]]].
  - rewrite (parse_rows_none _ H1 H2). symmetry. apply parse_rows_none.
    + apply (no_label_strip label1 doc); auto.
    + apply (no_label_strip label2 doc); auto.
  - symmetry in H. rewrite map_app in H. cbn [map] in H.
    apply map_eq_app in H as [pre' [rest [-> [Hp Hrest]]]].
    apply map_eq_cons in Hrest as [a' [suf' [-> [Hsa Hs]]]].
    assert (Ha' : anchored pre' a' suf').
    { now apply (anchored_strip pre pre' a a' suf suf'). }
    rewrite (parse_rows_anchored _ _ _ Ha), (parse_rows_anchored _ _ _ Ha').
    now apply walk_strip.
Qed.

Lemma parse_rows_ignores_outer_space_witness :
  parse_rows
    [ lit "  Constituency Results ";
      lit " East Kingston  Kingston  Jane Doe  PNP  12345  55.2%  Declared  42  ";
      copyright_sign ++ lit " 2025" ] =
  [ scenario_row ].
Proof.
  exact (eq_trans
           (parse_rows_ignores_outer_space
              [ lit "  Constituency Results ";
                lit " East Kingston  Kingston  Jane Doe  PNP  12345  55.2%  Declared  42  ";
                copyright_sign ++ lit " 2025" ]
              scenario eq_refl)
           eq_refl).
Defined.

(** ** [parse_rows]: the separator never survives in a fragment *)

Lemma app_same_length {A : Type} (l1 l2 x y : list A) :
  List.length l1 = List.length l2 -> l1 ++ x = l2 ++ y -> l1 = l2 /\ x = y.
Proof.
  revert l2. induction l1 as [|a l1 IH]; intros [|b l2] Hlen H;
    try discriminate; [now split|].
  cbn [app] in H. injection H as -> H. injection Hlen as Hlen.
  destruct (IH l2 Hlen H) as [-> ->]. now split.
Qed.

Lemma split_go_no_sep (sep : str) (s : str) (skip : nat) (cur : str) :
  sep <> [] ->
  skip = 0 \/ cur = [] ->
  (forall l r, rev cur ++ s = l ++ sep ++ r -> List.length cur <= List.length l) ->
  Forall (fun p => contains sep p = false) (split_go sep skip cur s).
Proof.
  intros Hsep. revert skip cur.
  assert (Hfrag : forall cur s,
            (forall l r, rev cur ++ s = l ++ sep ++ r ->
                         List.length cur <= List.length l) ->
            contains sep (rev cur) = false).
  { intros cur s0 Hinv. destruct (contains sep (rev cur)) eqn:Hc; [|reflexivity].
    apply contains_spec in Hc as [l [r Hc]].
    assert (Hlen : List.length cur <= List.length l).
    { apply (Hinv l (r ++ s0)). now rewrite Hc, <- !app_assoc. }
    apply (f_equal (@List.length char)) in Hc.
    rewrite length_rev, !length_app in Hc.
    destruct sep; [congruence|]. cbn [List.length] in Hc. lia. }
  induction s as [|c s IH]; intros skip cur Hskip Hinv.
  - cbn [split_go]. constructor; [|constructor]. now apply (Hfrag cur []).
  - cbn [split_go]. destruct skip as [|k].
    + destruct (startswith sep (c :: s)) eqn:Hst.
      * constructor; [now apply (Hfrag cur (c :: s))|].
        apply IH; [now right|]. intros l r _. cbn [List.length]. lia.
      * apply IH; [now left|]. intros l r Heq.
        cbn [rev] in Heq. rewrite <- app_assoc in Heq. cbn [app] in Heq.
        pose proof (Hinv l r Heq) as Hle. cbn [List.length].
        destruct (Nat.eq_dec (List.length cur) (List.length l)) as [Heqlen|]; [|lia].
        rewrite <- length_rev in Heqlen.
        destruct (app_same_length _ _ _ _ Heqlen Heq) as [_ Htail].
        assert (Hst' : startswith sep (c :: s) = true).
        { apply startswith_spec. now exists r. }
        congruence.
    + destruct Hskip as [Hk | ->]; [discriminate|].
      apply IH; [now right|]. intros l r _. cbn [List.length]. lia.
Qed.

(** No fragment of a split contains the separator. *)
Lemma split_no_sep (sep s : str) :
  sep <> [] -> Forall (fun p => contains sep p = false) (split sep s).
Proof.
  intros Hsep. apply split_go_no_sep; [exact Hsep | now left |].
  intros l r _. cbn [List.length]. lia.
Qed.

Lemma fragments_no_double_space (s p : str) :
  In p (fragments s) -> contains double_space p = false.
Proof.
  unfold fragments. rewrite filter_In. intros [Hin _].
  pose proof (split_no_sep double_space s ltac:(discriminate)) as H.
  rewrite Forall_forall in H. now apply H.
Qed.

(** X4: in every row of the result, the values of all fields but percent
    are free of two consecutive spaces, the separator the node was split
    on.  The percent value is not: removing a percent sign that stood
    between two spaces leaves them side by side. *)
Theorem row_values_without_separator :
  (forall doc r k,
      In r (parse_rows doc) -> In k FIELDS -> k <> lit "percent" ->
      contains (lit "  ") (get r k []) = false)
  /\
  (exists r, parse_rows spaced_percent_doc = [r] /\
             get r (lit "percent") [] = lit "1  2").
Proof.
  split; [|eexists; split; reflexivity].
  intros doc r k Hr Hk Hp.
  destruct (parse_rows_origin _ _ Hr)
    as [pre [a [suf [node [_ [_ [_ [_ [_ [H8 ->]]]]]]]]]].
  set (parts := fragments (strip node)) in *.
  assert (Hnth : forall i, i < 8 -> contains double_space (nth i parts []) = false).
  { intros i Hi. apply (fragments_no_double_space (strip node)).
    apply nth_In. fold parts. lia. }
  rewrite make_row_fields.
  destruct Hk as [<-|[<-|[<-|[<-|[<-|[<-|[<-|[<-|[]]]]]]]]].
  - exact (Hnth 0 ltac:(lia)).
  - exact (Hnth 1 ltac:(lia)).
  - exact (Hnth 2 ltac:(lia)).
  - exact (Hnth 3 ltac:(lia)).
  - exact (Hnth 4 ltac:(lia)).
  - congruence.
  - exact (Hnth 6 ltac:(lia)).
  - exact (Hnth 7 ltac:(lia)).
Qed.

Lemma row_values_without_separator_witness :
  In scenario_row (parse_rows scenario) /\
  contains (lit "  ") (get scenario_row (lit "candidate") []) = false.
Proof.
  assert (H : In scenario_row (parse_rows scenario)) by (left; reflexivity).
  split; [exact H|].
  refine (proj1 row_values_without_separator scenario scenario_row (lit "candidate") H _ _).
  - right. right. now left.
  - discriminate.
Defined.

(** ** [parse_rows]: the values are taken from the text as it is *)

Lemma lstrip_suffix (s : str) : exists ws, s = ws ++ lstrip s.
Proof.
  induction s as [|c s [ws IH]]; [now exists []|]. cbn [lstrip].
  destruct (isspace c); [|now exists []].
  exists (c :: ws). cbn [app]. now rewrite <- IH.
Qed.

Lemma strip_substring (s : str) : exists a b, s = a ++ strip s ++ b.
Proof.
  destruct (lstrip_suffix s) as [ws Hs].
  destruct (lstrip_suffix (rev (lstrip s))) as [ws' Ht].
  exists ws, (rev ws'). unfold strip, rstrip.
  apply (f_equal (@rev char)) in Ht. rewrite rev_involutive, rev_app_distr in Ht.
  now rewrite <- Ht.
Qed.

Lemma split_go_substrings (sep whole : str) (s : str) (skip : nat) (cur l : str) :
  skip = 0 \/ cur = [] ->
  whole = l ++ rev cur ++ s ->
  Forall (fun p => exists a b, whole = a ++ p ++ b) (split_go sep skip cur s).
Proof.
  revert skip cur l. induction s as [|c s IH]; intros skip cur l Hskip Hw.
  - cbn [split_go]. constructor; [|constructor]. now exists l, [].
  - cbn [split_go]. destruct skip as [|k].
    + destruct (startswith sep (c :: s)).
      * constructor; [now exists l, (c :: s)|].
        apply (IH _ [] (l ++ rev cur ++ [c])); [now right|].
        rewrite Hw, <- !app_assoc. reflexivity.
      * apply (IH 0 (c :: cur) l); [now left|].
        rewrite Hw. cbn [rev]. now rewrite <- !app_assoc.
    + destruct Hskip as [Hk | ->]; [discriminate|].
      apply (IH k [] (l ++ [c])); [now right|].
      rewrite Hw. cbn [rev app]. now rewrite <- app_assoc.
Qed.

(** Every fragment of the trimmed text of a node stands in the text of
    the node. *)
Lemma fragment_in_node (node p : str) :
  In p (fragments (strip node)) -> contains p node = true.
Proof.
  unfold fragments. rewrite filter_In. intros [Hin _].
  pose proof (split_go_substrings double_space (strip node) (strip node) 0 [] []
                (or_introl eq_refl) eq_refl) as H.
  rewrite Forall_forall in H. destruct (H p Hin) as [a [b Hp]].
  destruct (strip_substring node) as [a' [b' Hn]].
  apply contains_spec. exists (a' ++ a), (b ++ b').
  rewrite Hn at 1. rewrite Hp, <- !app_assoc. reflexivity.
Qed.

(** X12: nothing in a row is made up: each row comes from one node of
    the document, and the values of all its fields but percent stand, as
    they are, in the text of that node. *)
Theorem row_values_from_node_text (doc : soup) (r : dict) :
  In r (parse_rows doc) ->
  exists node,
    In node doc /\
    forall k, In k FIELDS -> k <> lit "percent" ->
              contains (get r k []) node = true.
Proof.
  intros Hr.
  destruct (parse_rows_origin _ _ Hr)
    as [pre [a [suf [node [-> [_ [Hin [_ [_ [H8 ->]]]]]]]]]].
  exists node. split; [apply in_or_app; right; now right|].
  set (parts := fragments (strip node)) in *.
  assert (Hnth : forall i, i < 8 -> contains (nth i parts []) node = true).
  { intros i Hi. apply fragment_in_node. apply nth_In. fold parts. lia. }
  intros k Hk Hp. rewrite make_row_fields.
  destruct Hk as [<-|[<-|[<-|[<-|[<-|[<-|[<-|[<-|[]]]]]]]]].
  - exact (Hnth 0 ltac:(lia)).
  - exact (Hnth 1 ltac:(lia)).
  - exact (Hnth 2 ltac:(lia)).
  - exact (Hnth 3 ltac:(lia)).
  - exact (Hnth 4 ltac:(lia)).
  - congruence.
  - exact (Hnth 6 ltac:(lia)).
  - exact (Hnth 7 ltac:(lia)).
Qed.

Lemma row_values_from_node_text_witness :
  exists node,
    In node scenario /\
    contains (get scenario_row (lit "candidate") []) node = true.
Proof.
  destruct (row_values_from_node_text scenario scenario_row (or_introl eq_refl))
    as [node [Hin Hk]].
  exists node. split; [exact Hin|].
  apply Hk; [right; right; now left | discriminate].
Defined.

(** ** [main]: the two outcomes of the fetch and the parse *)

Lemma fetch_html_pure (env : Env) (url : str) (w : World) :
  fst (fetch_html env url w) = w.
Proof.
  unfold fetch_html, bind, lift, ret.
  destruct (requests_get env url) as [r|e]; [|reflexivity].
  now destruct (raise_for_status env r) as [[]|e].
Qed.

Lemma parse_rows_html_pure (env : Env) (html : str) (w : World) :
  fst (parse_rows_html env html w) = w.
Proof.
  unfold parse_rows_html, bind, lift, ret.
  now destruct (BeautifulSoup env html).
Qed.

(** The outcome of the fetch and of the parse does not depend on the
    world. *)
Lemma fetch_html_result (env : Env) (url : str) (w w' : World) :
  snd (fetch_html env url w) = snd (fetch_html env url w').
Proof.
  unfold fetch_html, bind, lift, ret.
  destruct (requests_get env url) as [r|e]; [|reflexivity].
  now destruct (raise_for_status env r) as [[]|e].
Qed.

Lemma parse_rows_html_result (env : Env) (html : str) (w w' : World) :
  snd (parse_rows_html env html w) = snd (parse_rows_html env html w').
Proof.
  unfold parse_rows_html, bind, lift, ret.
  now destruct (BeautifulSoup env html).
Qed.

Lemma scrape_raises_any_world (env : Env) (w w' : World) (e : exn) :
  scrape_raises env w e -> scrape_raises env w' e.
Proof.
  intros [H | [html [H1 H2]]].
  - left. now rewrite (fetch_html_result env URL w' w).
  - right. exists html.
    now rewrite (fetch_html_result env URL w' w), (parse_rows_html_result env html w' w).
Qed.

Lemma scrape_returns_any_world (env : Env) (w w' : World) (rows : list dict) :
  scrape_returns env w rows -> scrape_returns env w' rows.
Proof.
  intros [html [H1 H2]]. exists html.
  now rewrite (fetch_html_result env URL w' w), (parse_rows_html_result env html w' w).
Qed.

(** Either the fetch or the parse raises, or both return. *)
Lemma scrape_outcome (env : Env) (w : World) :
  (exists e, scrape_raises env w e) \/ (exists rows, scrape_returns env w rows).
Proof.
  destruct (snd (fetch_html env URL w)) as [html|e] eqn:Hf.
  - destruct (snd (parse_rows_html env html w)) as [rows|e] eqn:Hp.
    + right. exists rows, html. now split.
    + left. exists e. right. exists html. now split.
  - left. exists e. now left.
Qed.

Lemma scrape_returns_body (env : Env) (w : World) (rows : list dict) :
  scrape_returns env w rows ->
  bind (fetch_html env URL)
       (fun html => bind (parse_rows_html env html)
                         (fun rows => ret (@inl (list dict) nat rows))) w
  = (w, Return (inl rows)).
Proof.
  intros [html [H1 H2]]. unfold bind.
  pose proof (fetch_html_pure env URL w) as Hw1.
  destruct (fetch_html env URL w) as [w1 r1]. cbn [fst snd] in *. subst w1 r1.
  pose proof (parse_rows_html_pure env html w) as Hw2.
  destruct (parse_rows_html env html w) as [w2 r2]. cbn [fst snd] in *.
  now subst w2 r2.
Qed.

(** What a run leaves behind when the fetch and the parse return. *)
Lemma main_success (env : Env) (w : World) (rows : list dict) :
  scrape_returns env w rows ->
  exists w' res,
    main env w = (w', res) /\
    lookup (files w') results_csv = Some (csv_text (writable_prefix rows)) /\
    lookup (files w') results_json =
      Some (json_dumps (success_payload (gmtime env) rows)) /\
    (forallb row_writable rows = true ->
     stdout_encode env (saved_line env rows) = Return tt ->
     res = Return 0 /\ stdout w' = stdout w ++ [saved_line env rows]) /\
    (forallb row_writable rows = false \/
     (exists e, stdout_encode env (saved_line env rows) = Raise e) ->
     (exists e, res = Raise e) /\ stdout w' = stdout w).
Proof.
  intros H. apply scrape_returns_body in H.
  destruct (write_artifacts_files env rows w)
    as [w' [res [Hw [Hcsv [Hjson [Hok Hbad]]]]]].
  exists w', (match res with Return _ => Return 0 | Raise e => Raise e end).
  split.
  { unfold main. unfold bind at 1. unfold try_except. rewrite H.
    unfold bind at 1. rewrite Hw. now destruct res as [[]|e]. }
  split; [exact Hcsv|]. split; [exact Hjson|]. split.
  - intros Hall Hout. destruct (Hok Hall Hout) as [-> Hs]. now split.
  - intros Hfail. destruct (Hbad Hfail) as [[e ->] Hs]. split; [now exists e | exact Hs].
Qed.

Lemma run_of_main (env : Env) (w w' : World) (res : except nat) :
  main env w = (w', res) ->
  run env w = (w', match res with Return code => code | Raise _ => 1 end).
Proof. intros H. unfold run. rewrite H. now destruct res. Qed.

Lemma in_error_range (r : response) :
  (400 <= status_code r < 600)%N <->
  ((400 <=? status_code r) && (status_code r <? 600))%N = true.
Proof. rewrite andb_true_iff, N.leb_le, N.ltb_lt. tauto. Qed.

Lemma fetch_html_status (env : Env) (w : World) (r : response) :
  requests_get env URL = Return r ->
  fetch_html env URL w =
  (w, if ((400 <=? status_code r) && (status_code r <? 600))%N
      then Raise (http_error env r) else Return (text r)).
Proof.
  intros H. unfold fetch_html, bind, lift, ret, raise_for_status. rewrite H.
  now destruct ((400 <=? status_code r) && (status_code r <? 600))%N.
Qed.

Lemma status_not_error (r : response) :
  (status_code r < 400 \/ 600 <= status_code r)%N ->
  ((400 <=? status_code r) && (status_code r <? 600))%N = false.
Proof.
  intros H. destruct ((400 <=? status_code r) && (status_code r <? 600))%N eqn:Hb;
    [|reflexivity].
  apply in_error_range in Hb. lia.
Qed.

Lemma served_and_parsed (env : Env) (w : World) (r : response) (doc : soup) :
  requests_get env URL = Return r ->
  (status_code r < 400 \/ 600 <= status_code r)%N ->
  BeautifulSoup env (text r) = Return doc ->
  scrape_returns env w (parse_rows doc).
Proof.
  intros Hget Hstatus Hdoc. exists (text r).
  rewrite (fetch_html_status env w r Hget), (status_not_error r Hstatus). cbn [snd].
  split; [reflexivity|].
  unfold parse_rows_html, bind, lift, ret. now rewrite Hdoc.
Qed.

(** ** The rows of an encodable document can be written *)

Lemma utf8_contains (p s : str) :
  contains p s = true -> utf8_encodable s = true -> utf8_encodable p = true.
Proof.
  intros Hc Hs. apply contains_spec in Hc as [l [r ->]].
  rewrite !utf8_app, !andb_true_iff in Hs. tauto.
Qed.

Lemma utf8_filter (f : char -> bool) (s : str) :
  utf8_encodable s = true -> utf8_encodable (filter f s) = true.
Proof.
  unfold utf8_encodable. rewrite !forallb_forall. intros H c Hc.
  apply filter_In in Hc as [Hc _]. now apply H.
Qed.

(** When no text node has a lone surrogate, no row has one. *)
Lemma parse_rows_writable (doc : soup) :
  Forall (fun node => utf8_encodable node = true) doc ->
  forallb row_writable (parse_rows doc) = true.
Proof.
  intros Hdoc. apply forallb_forall. intros r Hr.
  destruct (parse_rows_origin _ _ Hr)
    as [pre [a [suf [node [-> [_ [Hin [_ [_ [H8 ->]]]]]]]]]].
  assert (Hnode : utf8_encodable node = true).
  { rewrite Forall_forall in Hdoc. apply Hdoc. apply in_or_app. right. now right. }
  set (parts := fragments (strip node)) in *.
  assert (Hnth : forall i, i < 8 -> utf8_encodable (nth i parts []) = true).
  { intros i Hi. apply (utf8_contains _ node); [|exact Hnode].
    apply fragment_in_node. apply nth_In. fold parts. lia. }
  rewrite make_row_fields.
  change (row_writable (row_of (nth 0 parts []) (nth 1 parts []) (nth 2 parts [])
                               (nth 3 parts []) (nth 4 parts [])
                               (strip_percent (nth 5 parts []))
                               (nth 6 parts []) (nth 7 parts [])))
    with (forallb utf8_encodable
            [ nth 0 parts []; nth 1 parts []; nth 2 parts []; nth 3 parts [];
              nth 4 parts []; strip_percent (nth 5 parts []);
              nth 6 parts []; nth 7 parts [] ]).
  cbn [forallb]. unfold strip_percent.
  rewrite !Hnth, (utf8_filter _ _ (Hnth 5 ltac:(lia))) by lia. reflexivity.
Qed.

(** ** [main]: the successful run *)

(** X5: when the page is served with a status outside 400..599, its
    markup parses, no text node has a lone surrogate and standard output
    takes the line to print, the run ends with exit status 0,
    [results.json] holds the payload with the three keys source,
    fetched_at and rows (no error key), the rows being those of
    [parse_rows], [results.csv] holds the header line and one line per
    row, and the line with the number of rows is printed. *)
Theorem scrape_success_persisted (env : Env) (w : World) (r : response) (doc : soup) :
  requests_get env URL = Return r ->
  (status_code r < 400 \/ 600 <= status_code r)%N ->
  BeautifulSoup env (text r) = Return doc ->
  Forall (fun node => utf8_encodable node = true) doc ->
  stdout_encode env
    (lit "Saved " ++ str_of_nat (List.length (parse_rows doc))
     ++ lit " rows at " ++ gmtime env) = Return tt ->
  exists w',
    run env w = (w', 0) /\
    lookup (files w') results_json =
      Some (json_dumps
              (JObj [ (lit "source", JStr URL); (lit "fetched_at", JStr (gmtime env));
                      (lit "rows", json_of_rows (parse_rows doc)) ])) /\
    lookup (files w') results_csv =
      Some (header_line
            ++ List.concat
                 (map (fun row =>
                         join [delimiter] (map (fun k => csv_field (get row k [])) FIELDS)
                         ++ lineterminator) (parse_rows doc))) /\
    stdout w' =
      stdout w ++ [ lit "Saved " ++ str_of_nat (List.length (parse_rows doc))
                    ++ lit " rows at " ++ gmtime env ].
Proof.
  intros Hget Hstatus Hdoc Henc Hout.
  pose proof (served_and_parsed env w r doc Hget Hstatus Hdoc) as Hret.
  pose proof (parse_rows_writable doc Henc) as Hall.
  destruct (main_success env w _ Hret) as [w' [res [Hm [Hcsv [Hjson [Hok _]]]]]].
  destruct (Hok Hall Hout) as [-> Hs].
  exists w'. rewrite (run_of_main _ _ _ _ Hm). split; [reflexivity|].
  split; [exact Hjson|]. split; [|exact Hs].
  rewrite Hcsv, (writable_prefix_all _ Hall). unfold csv_text.
  apply f_equal, (f_equal (app header_line)), (f_equal (@List.concat _)), map_ext.
  intros row. unfold csv_line, row_values. now rewrite map_map.
Qed.

Lemma scrape_success_persisted_witness :
  exists w',
    run ok_env empty_world = (w', 0) /\
    stdout w' = [ lit "Saved 1 rows at 2025-09-03T12:00:00Z" ].
Proof.
  destruct (scrape_success_persisted ok_env empty_world
              (mkResponse 200 (lit "<html>...</html>")) scenario
              eq_refl (or_introl eq_refl) eq_refl
              ltac:(repeat constructor) eq_refl)
    as [w' [Hr [_ [_ Hout]]]].
  exists w'. split; [exact Hr | exact Hout].
Defined.

(** X6: whatever the network and the parser do, and even when a later
    write or the print raises, the run leaves a [results.json] and a
    [results.csv] that starts with the header line.  It prints at most
    one message, and its exit status tells whether it did: 0 when the
    message was printed, 1 when an exception left [main] and nothing was
    printed. *)
Theorem run_always_leaves_artifacts (env : Env) (w : World) :
  exists w' code text body,
    run env w = (w', code) /\
    lookup (files w') results_json = Some text /\
    lookup (files w') results_csv = Some (header_line ++ body) /\
    ((code = 0 /\ exists message, stdout w' = stdout w ++ [message]) \/
     (code = 1 /\ stdout w' = stdout w)).
Proof.
  destruct (scrape_outcome env w) as [[e H] | [rows H]].
  - destruct (main_failure env w e H) as [w' [res [Hm [Hj [Hc [Hok Hbad]]]]]].
    exists w', (match res with Return code => code | Raise _ => 1 end),
      (json_dumps (failure_payload (gmtime env) (str_of_exn e))), [].
    rewrite app_nil_r. split; [now apply run_of_main|].
    split; [exact Hj|]. split; [exact Hc|].
    destruct (stdout_encode env (error_line e)) as [[]|e'] eqn:Hout.
    + destruct (Hok eq_refl) as [-> Hs]. left. split; [reflexivity | eexists; exact Hs].
    + destruct (Hbad e' eq_refl) as [-> Hs]. now right.
  - destruct (main_success env w rows H) as [w' [res [Hm [Hc [Hj [Hok Hbad]]]]]].
    exists w', (match res with Return code => code | Raise _ => 1 end),
      (json_dumps (success_payload (gmtime env) rows)),
      (List.concat (map (fun r => csv_line (row_values r)) (writable_prefix rows))).
    split; [now apply run_of_main|]. split; [exact Hj|]. split; [exact Hc|].
    destruct (forallb row_writable rows) eqn:Hall.
    + destruct (stdout_encode env (saved_line env rows)) as [[]|e'] eqn:Hout.
      * destruct (Hok eq_refl eq_refl) as [-> Hs].
        left. split; [reflexivity | eexists; exact Hs].
      * destruct (Hbad (or_intror (ex_intro _ e' eq_refl))) as [[e0 ->] Hs]. now right.
    + destruct (Hbad (or_introl eq_refl)) as [[e0 ->] Hs]. now right.
Qed.

(** X7: an answer with a status from 400 to 599 is a failure of the
    fetch even though a body came with it: the body is not parsed,
    [results.json] holds the failure payload with the text of the HTTP
    error and [results.csv] the header line alone; when standard output
    takes the error line, it is printed and the run ends with exit status
    0. *)
Theorem http_error_status_recovered (env : Env) (w : World) (r : response) :
  requests_get env URL = Return r ->
  (400 <= status_code r < 600)%N ->
  exists w' code,
    run env w = (w', code) /\
    lookup (files w') results_json =
      Some (json_dumps
              (JObj [ (lit "source", JStr URL); (lit "fetched_at", JStr (gmtime env));
                      (lit "rows", JArr []);
                      (lit "error", JStr (str_of_exn (http_error env r))) ])) /\
    lookup (files w') results_csv = Some header_line /\
    (stdout_encode env (lit "Error: " ++ str_of_exn (http_error env r)) = Return tt ->
     code = 0 /\
     stdout w' = stdout w ++ [lit "Error: " ++ str_of_exn (http_error env r)]).
Proof.
  intros Hget Hstatus. apply in_error_range in Hstatus.
  assert (H : scrape_raises env w (http_error env r)).
  { left. now rewrite (fetch_html_status env w r Hget), Hstatus. }
  destruct (main_failure env w _ H) as [w' [res [Hm [Hj [Hc [Hok _]]]]]].
  exists w', (match res with Return code => code | Raise _ => 1 end).
  split; [now apply run_of_main|]. split; [exact Hj|]. split; [exact Hc|].
  intros Hout. destruct (Hok Hout) as [-> Hs]. now split.
Qed.

Lemma http_error_status_recovered_witness :
  exists w',
    run not_found_env empty_world = (w', 0) /\
    stdout w' = [ lit "Error: 404 Client Error: Not Found for url" ] /\
    lookup (files w') results_csv = Some header_line.
Proof.
  assert (Hs : (400 <= status_code (mkResponse 404 (lit "<html>Not Found</html>")) < 600)%N).
  { cbn [status_code]. lia. }
  destruct (http_error_status_recovered not_found_env empty_world _ eq_refl Hs)
    as [w' [code [Hr [_ [Hc Hok]]]]].
  destruct (Hok eq_refl) as [Hcode Hout].
  exists w'. split; [now rewrite Hr, Hcode|]. split; [exact Hout | exact Hc].
Defined.

(** ** [main]: the files it writes and the files it leaves alone *)

Lemma kept_ret {A : Type} (a : A) : other_files_kept (ret a).
Proof. now intros w p _ _. Qed.

Lemma kept_lift {A : Type} (r : except A) : other_files_kept (lift r).
Proof. now intros w p _ _. Qed.

Lemma kept_print (env : Env) (line : str) : other_files_kept (print env line).
Proof.
  intros w p _ _. unfold print. now destruct (stdout_encode env line).
Qed.

Lemma kept_bind {A B : Type} (m : io A) (k : A -> io B) :
  other_files_kept m -> (forall a, other_files_kept (k a)) ->
  other_files_kept (bind m k).
Proof.
  intros Hm Hk w p Hj Hc. unfold bind. specialize (Hm w p Hj Hc).
  destruct (m w) as [w1 [a|e]]; cbn [fst] in *; [|exact Hm].
  now rewrite (Hk a w1 p Hj Hc).
Qed.

Lemma kept_try_except {A : Type} (body : io A) (handler : exn -> io A) :
  other_files_kept body -> (forall e, other_files_kept (handler e)) ->
  other_files_kept (try_except body handler).
Proof.
  intros Hb Hh w p Hj Hc. unfold try_except. specialize (Hb w p Hj Hc).
  destruct (body w) as [w1 [a|e]]; cbn [fst] in *; [exact Hb|].
  now rewrite (Hh e w1 p Hj Hc).
Qed.

Lemma kept_open_w (path : str) :
  path = results_json \/ path = results_csv -> other_files_kept (open_w path).
Proof.
  intros Hpath w p Hj Hc. cbn [open_w fst files].
  apply lookup_dict_set_other. destruct Hpath; congruence.
Qed.

Lemma kept_file_write (path text : str) :
  path = results_json \/ path = results_csv ->
  other_files_kept (file_write path text).
Proof.
  intros Hpath w p Hj Hc. unfold file_write.
  destruct (utf8_encodable text); [|reflexivity]. cbn [fst files].
  apply lookup_dict_set_other. destruct Hpath; congruence.
Qed.

Lemma kept_write_text (path content : str) :
  path = results_json \/ path = results_csv ->
  other_files_kept (write_text path content).
Proof.
  intros Hpath. unfold write_text.
  apply kept_bind; [now apply kept_open_w | intros _; now apply kept_file_write].
Qed.

Lemma kept_writerow (fieldnames : list str) (rowdict : dict) :
  other_files_kept (writerow results_csv fieldnames rowdict).
Proof.
  unfold writerow. apply kept_bind; [apply kept_lift|].
  intros row. apply kept_file_write. now right.
Qed.

Lemma kept_for_each {A : Type} (xs : list A) (body : A -> io unit) :
  (forall x, other_files_kept (body x)) -> other_files_kept (for_each xs body).
Proof.
  intros Hbody. induction xs as [|x xs IH]; cbn [for_each].
  - apply kept_ret.
  - apply kept_bind; [apply Hbody | intros _; exact IH].
Qed.

Lemma kept_write_artifacts (env : Env) (rows : list dict) :
  other_files_kept (write_artifacts env rows).
Proof.
  unfold write_artifacts.
  apply kept_bind; [apply kept_write_text; now left | intros _].
  apply kept_bind; [apply kept_open_w; now right | intros _].
  apply kept_bind; [apply kept_writerow | intros _].
  apply kept_bind; [| intros _; apply kept_print].
  apply kept_for_each. intros r. apply kept_writerow.
Qed.

Lemma kept_main (env : Env) : other_files_kept (main env).
Proof.
  unfold main. apply kept_bind.
  - apply kept_try_except.
    + apply kept_bind.
      * intros w p _ _. now rewrite fetch_html_pure.
      * intros html. apply kept_bind; [|intros rows; apply kept_ret].
        intros w p _ _. now rewrite parse_rows_html_pure.
    + intros e.
      apply kept_bind; [apply kept_write_text; now left | intros _].
      apply kept_bind; [apply kept_open_w; now right | intros _].
      apply kept_bind; [apply kept_writerow | intros _].
      apply kept_bind; [apply kept_print | intros _; apply kept_ret].
  - intros [rows | code]; [|apply kept_ret].
    apply kept_bind; [apply kept_write_artifacts | intros _; apply kept_ret].
Qed.

Lemma run_world (env : Env) (w : World) : fst (run env w) = fst (main env w).
Proof. unfold run. now destruct (main env w) as [w' [code|e]]. Qed.

Lemma run_artifacts (env : Env) (w : World) :
  exists text_json text_csv,
    forall w0,
      lookup (files (fst (run env w0))) results_json = Some text_json /\
      lookup (files (fst (run env w0))) results_csv = Some text_csv.
Proof.
  destruct (scrape_outcome env w) as [[e H] | [rows H]].
  - exists (json_dumps (failure_payload (gmtime env) (str_of_exn e))), header_line.
    intros w0.
    destruct (main_failure env w0 e (scrape_raises_any_world env w w0 e H))
      as [w' [res [Hm [Hj [Hc _]]]]].
    rewrite run_world, Hm. now split.
  - exists (json_dumps (success_payload (gmtime env) rows)),
      (csv_text (writable_prefix rows)).
    intros w0.
    destruct (main_success env w0 rows (scrape_returns_any_world env w w0 rows H))
      as [w' [res [Hm [Hc [Hj _]]]]].
    rewrite run_world, Hm. now split.
Qed.

(** X8: a run rewrites the two artifacts and nothing else.  Every other
    file is left as it was, and what the two artifacts hold after the run
    does not depend on what the files held before it: they are
    overwritten, not appended to or merged, so running again in the same
    environment leaves them the same. *)
Theorem run_overwrites_artifacts_only (env : Env) :
  (forall w p,
      p <> results_json -> p <> results_csv ->
      lookup (files (fst (run env w))) p = lookup (files w) p)
  /\
  (forall w1 w2,
      lookup (files (fst (run env w1))) results_json =
        lookup (files (fst (run env w2))) results_json /\
      lookup (files (fst (run env w1))) results_csv =
        lookup (files (fst (run env w2))) results_csv)
  /\
  (forall w,
      lookup (files (fst (run env (fst (run env w))))) results_json =
        lookup (files (fst (run env w))) results_json /\
      lookup (files (fst (run env (fst (run env w))))) results_csv =
        lookup (files (fst (run env w))) results_csv).
Proof.
  assert (Hsame : forall w1 w2,
      lookup (files (fst (run env w1))) results_json =
        lookup (files (fst (run env w2))) results_json /\
      lookup (files (fst (run env w1))) results_csv =
        lookup (files (fst (run env w2))) results_csv).
  { intros w1 w2. destruct (run_artifacts env w1) as [tj [tc H]].
    destruct (H w1) as [Hj1 Hc1]. destruct (H w2) as [Hj2 Hc2].
    split; congruence. }
  split; [|split; [exact Hsame | intros w; apply Hsame]].
  intros w p Hj Hc. rewrite run_world. now apply kept_main.
Qed.

Lemma run_overwrites_artifacts_only_witness :
  lookup (files (fst (run timeout_env readme_world))) (lit "README.md") =
    Some (lit "Jamaica election live") /\
  lookup (files (fst (run timeout_env readme_world))) results_csv = Some header_line.
Proof.
  split; [|reflexivity].
  exact (proj1 (run_overwrites_artifacts_only timeout_env) readme_world (lit "README.md")
           ltac:(discriminate) ltac:(discriminate)).
Defined.

(** ** From the page to the CSV file and back *)

Lemma row_values_make_row (parts : list str) :
  row_values (make_row parts) = map snd (make_row parts).
Proof. reflexivity. Qed.

Lemma parse_rows_values (doc : soup) :
  map row_values (parse_rows doc) = map (map snd) (parse_rows doc).
Proof.
  apply map_ext_in. intros r Hr.
  destruct (parse_rows_origin _ _ Hr) as [pre [a [suf [node [_ [_ [_ [_ [_ [_ ->]]]]]]]]]].
  apply row_values_make_row.
Qed.

(** X9: when no text node has a lone surrogate, the rows scraped by a
    successful run are recovered from the CSV file it wrote: read back,
    the file gives the header and then, row by row and in order, the eight
    values of each row of [parse_rows], as they are, whatever commas,
    quotes or line breaks they contain. *)
Theorem scraped_rows_read_back (env : Env) (w : World) (r : response) (doc : soup) :
  requests_get env URL = Return r ->
  (status_code r < 400 \/ 600 <= status_code r)%N ->
  BeautifulSoup env (text r) = Return doc ->
  Forall (fun node => utf8_encodable node = true) doc ->
  exists content,
    lookup (files (fst (run env w))) results_csv = Some content /\
    csv_reader content = Return (FIELDS :: map (map snd) (parse_rows doc)).
Proof.
  intros Hget Hstatus Hdoc Henc.
  pose proof (served_and_parsed env w r doc Hget Hstatus Hdoc) as Hret.
  pose proof (parse_rows_writable doc Henc) as Hall.
  destruct (main_success env w _ Hret) as [w' [res [Hm [Hcsv _]]]].
  exists (csv_text (parse_rows doc)). rewrite run_world, Hm. cbn [fst]. split.
  - now rewrite Hcsv, (writable_prefix_all _ Hall).
  - now rewrite csv_text_records, records_read, parse_rows_values.
Qed.

Lemma scraped_rows_read_back_witness :
  exists content,
    lookup (files (fst (run ok_env empty_world))) results_csv = Some content /\
    csv_reader content = Return [ FIELDS; map snd scenario_row ].
Proof.
  exact (scraped_rows_read_back ok_env empty_world
           (mkResponse 200 (lit "<html>...</html>")) scenario
           eq_refl (or_introl eq_refl) eq_refl ltac:(repeat constructor)).
Defined.

Lemma csv_text_values (rows : list dict) :
  csv_text rows = header_line ++ List.concat (map csv_line (map row_values rows)).
Proof. unfold csv_text. now rewrite map_map. Qed.

(** X10: for rows whose values can be encoded in UTF-8, the CSV file
    holds the values of the eight fields and nothing else: two calls of
    [write_artifacts] leave the same [results.csv] exactly when their rows
    have, one by one, the same values for the eight fields (the empty
    string for an absent key); keys outside the eight fields make no
    difference and distinct values are never confused. *)
Theorem csv_determined_by_field_values (env : Env) (rows1 rows2 : list dict)
    (w1 w2 : World) :
  forallb row_writable rows1 = true ->
  forallb row_writable rows2 = true ->
  (lookup (files (fst (write_artifacts env rows1 w1))) results_csv =
     lookup (files (fst (write_artifacts env rows2 w2))) results_csv
   <->
   map (fun r => map (fun k => get r k []) FIELDS) rows1 =
     map (fun r => map (fun k => get r k []) FIELDS) rows2).
Proof.
  intros Hall1 Hall2.
  destruct (write_artifacts_files env rows1 w1) as [w1' [res1 [Hw1 [Hc1 _]]]].
  destruct (write_artifacts_files env rows2 w2) as [w2' [res2 [Hw2 [Hc2 _]]]].
  rewrite Hw1, Hw2. cbn [fst]. rewrite Hc1, Hc2.
  rewrite (writable_prefix_all _ Hall1), (writable_prefix_all _ Hall2).
  change (map (fun r => map (fun k => get r k []) FIELDS) rows1)
    with (map row_values rows1).
  change (map (fun r => map (fun k => get r k []) FIELDS) rows2)
    with (map row_values rows2).
  split.
  - intros H.
    assert (Ht : csv_text rows1 = csv_text rows2).
    { exact (f_equal (fun o : option str => match o with Some x => x | None => [] end) H). }
    apply (f_equal csv_reader) in Ht.
    rewrite !csv_text_records, !records_read in Ht.
    exact (f_equal (fun o => match o with
                             | Return (_ :: data) => data
                             | _ => []
                             end) Ht).
  - intros H. now rewrite !csv_text_values, H.
Qed.

Lemma csv_determined_by_field_values_example :
  lookup (files (fst (write_artifacts ok_env [annotated_row] empty_world))) results_csv =
  lookup (files (fst (write_artifacts ok_env [scenario_row] readme_world))) results_csv.
Proof.
  apply (csv_determined_by_field_values ok_env [annotated_row] [scenario_row]
           empty_world readme_world eq_refl eq_refl).
  reflexivity.
Defined.

(** ** [results.json] is plain ASCII *)

(** X11: whatever text was scraped and whatever the exception says, the
    [results.json] a run leaves is made of line feeds and printable ASCII
    characters only; every other character of a string is written as an
    escape. *)
Theorem results_json_is_ascii (env : Env) (w : World) :
  exists text,
    lookup (files (fst (run env w))) results_json = Some text /\
    Forall (fun c => c = 10 \/ 32 <= c <= 126)%N text.
Proof.
  assert (Hdumps : forall v, Forall (fun c => c = 10 \/ 32 <= c <= 126)%N (json_dumps v)).
  { intros v. eapply Forall_impl; [|apply (encode_ascii_only v 0)].
    intros c. apply printable_spec. }
  destruct (scrape_outcome env w) as [[e H] | [rows H]].
  - destruct (main_failure env w e H) as [w' [res [Hm [Hj _]]]].
    eexists. rewrite run_world, Hm. split; [exact Hj | apply Hdumps].
  - destruct (main_success env w rows H) as [w' [res [Hm [_ [Hj _]]]]].
    eexists. rewrite run_world, Hm. split; [exact Hj | apply Hdumps].
Qed.
